(** * Cookie-backed HTTP sessions (package [sessions])

    A shallow embedding of [session.go] (version 1.0.1): the session
    manager, the per-request record cached on the request's context, the
    commit step [saveCtx], the accessors and the buffering middleware.

    Go pointers are indices into stores kept in a [world]; an access
    through a pointer that is not live is a Go panic.  The codec
    (gorilla/securecookie with gob) and the clock are outside the package:
    the codec is a variable of the development, the clock a field of the
    world.  Of net/http the development has what the package relies on:
    [http.SetCookie] with its check of the cookie name, and a response
    writer that checks the status code and sends the header lines set
    before the first [WriteHeader] or [Write], as [httptest]'s recorder
    does. *)

From stdpp Require Import gmap strings list fin_maps pretty.
From Stdlib Require Import ZArith Ascii.

(** ** Values and the session record *)

(** Go's [interface{}]: the nil interface or a dynamically typed value (the
    shapes registered with gob in the package's [init]). *)
Unset Elimination Schemes.
Inductive iface :=
  | INil
  | IBool (b : bool)
  | IInt (n : Z)
  | IString (s : string)
  | ISlice (l : list iface)
  | IMap (m : list (string * iface)).
Set Elimination Schemes.

(** A Go [map[string]interface{}] value: [None] is the nil map. *)
Abbreviation gomap := (option (gmap string iface)).

(** [m[key]]: reading a missing key, or any key of a nil map, yields the
    zero value, the nil interface. *)
Definition map_index (m : gomap) (key : string) : iface :=
  match m with
  | Some g => default INil (g !! key)
  | None => INil
  end.

(** [delete(m, key)]: a no-op on a nil map. *)
Definition map_delete (m : gomap) (key : string) : gomap :=
  match m with
  | Some g => Some (delete key g)
  | None => None
  end.

(** [values := make(map); for k, v := range m { values[k] = v }]. *)
Definition map_range_copy (m : gomap) : gmap string iface :=
  match m with
  | Some g => map_fold (λ k v values, <[k:=v]> values) ∅ g
  | None => ∅
  end.

(** [clear(m)]: empties the map in place; a nil map stays nil. *)
Definition map_clear (m : gomap) : gomap :=
  match m with
  | Some _ => Some ∅
  | None => None
  end.

(** [type session struct { Data, Flashes map[string]interface{} }]. *)
Record session := mkSession {
  Data : gomap;
  Flashes : gomap;
}.

(** [&session{}]: both maps nil. *)
Definition zero_session : session := {| Data := None; Flashes := None |}.

(** ** Requests, cookies, headers *)

Abbreviation ptr := nat (only parsing).
Abbreviation error := string (only parsing).

(** A [context.Context], seen through the package's private key:
    [ctx.Value(sessionCtxKey)] is nil or a [*session]. *)
Record Context := mkContext { ctxValue : option ptr }.

Definition WithValue (_ : Context) (ss : ptr) : Context :=
  {| ctxValue := Some ss |}.

(** The parts of [http.Request] the package reads. *)
Record Request := mkRequest {
  reqContext : Context;
  reqCookies : list (string * string);
  reqPath : string;
}.

(** [r.Cookie(name)]: the first cookie of that name; [None] is
    [http.ErrNoCookie]. *)
Fixpoint Request_Cookie (cs : list (string * string)) (name : string)
  : option string :=
  match cs with
  | [] => None
  | (n, v) :: cs' => if decide (n = name) then Some v else Request_Cookie cs' name
  end.

(** The fields of [http.Cookie] that the package sets; [Expires] is in
    seconds of the world's clock. *)
Record Cookie := mkCookie {
  cName : string;
  cMaxAge : Z;
  cExpires : Z;
  cValue : string;
  cPath : string;
  cHttpOnly : bool;
  cSecure : bool;
}.

(** A header value: a plain string, a cookie standing for its
    [Cookie.String()] line, or the bytes [b] standing for the media type
    [http.DetectContentType(b)]. *)
Inductive hval :=
  | HStr (s : string)
  | HCookie (c : Cookie)
  | HDetected (b : string).

Abbreviation http_Header := (gmap string (list hval)).

(** [h.Add(key, value)]. *)
Definition Header_Add (h : http_Header) (key : string) (v : hval) : http_Header :=
  <[key := default [] (h !! key) ++ [v]]> h.

(** [h.Set(key, value)]. *)
Definition Header_Set (h : http_Header) (key : string) (v : hval) : http_Header :=
  <[key := [v]]> h.

(** [h.Get(key) != ""]: the first value under [key] is there and is not
    the empty string (a cookie line and a detected media type never are). *)
Definition Header_has (h : http_Header) (key : string) : bool :=
  match h !! key with
  | Some (HStr s :: _) => bool_decide (s ≠ "")
  | Some (_ :: _) => true
  | _ => false
  end.

(** [httpguts.IsTokenRune]: the characters of a token of RFC 7230, all of
    them ASCII. *)
Definition IsTokenRune (a : ascii) : bool :=
  let n := nat_of_ascii a in
  (Nat.leb 48 n && Nat.leb n 57) || (Nat.leb 65 n && Nat.leb n 90) ||
  (Nat.leb 97 n && Nat.leb n 122) ||
  existsb (Nat.eqb n) [33; 35; 36; 37; 38; 39; 42; 43; 45; 46; 94; 95; 96; 124; 126]%nat.

(** [strings.IndexFunc(raw, isNotToken) < 0]. *)
Fixpoint all_tokens (raw : string) : bool :=
  match raw with
  | EmptyString => true
  | String a rest => IsTokenRune a && all_tokens rest
  end.

(** [isCookieNameValid] of net/http. *)
Definition isCookieNameValid (raw : string) : bool :=
  if decide (raw = "") then false else all_tokens raw.

(** [c.String()]: [None] is the empty string, which net/http returns for
    a cookie whose name is not valid. *)
Definition Cookie_String (c : Cookie) : option hval :=
  if isCookieNameValid (cName c) then Some (HCookie c) else None.

(** ** The world *)

(** The buffer and status code of a [responseWrapper]; its underlying
    writer is kept beside the pointer, see [responseWrapper]. *)
Record wrapperCell := mkWrapperCell {
  rw_b : ptr;
  rw_c : Z;
}.

(** A recording response writer standing for the host's: the status code
    once the header has been written ([None] before), the header lines
    that went out with it, and the body bytes received. *)
Record recorder := mkRecorder {
  recCode : option Z;
  snapHeader : option http_Header;
  recBody : string;
}.

(** What was asked of the codec, in order. *)
Inductive codec_call :=
  | CallDecode (name value : string)
  | CallEncode (name : string) (value : session).

Record world := mkWorld {
  sessions : list session;       (* [*session] objects *)
  requests : list Request;       (* [*http.Request] objects *)
  headers : list http_Header;        (* [http.Header] maps *)
  buffers : list string;         (* [*bytes.Buffer] objects *)
  wrappers : list wrapperCell;   (* [*responseWrapper] objects *)
  recorders : list recorder;     (* the host's response writers *)
  pools : list (list ptr);       (* [*sync.Pool] objects: the buffers put back *)
  stdout : list string;          (* lines printed with [fmt.Printf] *)
  calls : list codec_call;       (* calls made to the codec *)
  now : Z;                       (* [time.Now()], in seconds *)
}.

(** A store of the world: how to read it and how to change it. *)
Record store (A : Type) := mkStore {
  view : world → list A;
  over : (list A → list A) → world → world;
}.
Arguments view {A} _ _.
Arguments over {A} _ _ _.

Definition sessionsS : store session :=
  {| view := sessions;
     over f st := mkWorld (f (sessions st)) (requests st) (headers st) (buffers st)
                    (wrappers st) (recorders st) (pools st) (stdout st) (calls st) (now st) |}.
Definition requestsS : store Request :=
  {| view := requests;
     over f st := mkWorld (sessions st) (f (requests st)) (headers st) (buffers st)
                    (wrappers st) (recorders st) (pools st) (stdout st) (calls st) (now st) |}.
Definition headersS : store http_Header :=
  {| view := headers;
     over f st := mkWorld (sessions st) (requests st) (f (headers st)) (buffers st)
                    (wrappers st) (recorders st) (pools st) (stdout st) (calls st) (now st) |}.
Definition buffersS : store string :=
  {| view := buffers;
     over f st := mkWorld (sessions st) (requests st) (headers st) (f (buffers st))
                    (wrappers st) (recorders st) (pools st) (stdout st) (calls st) (now st) |}.
Definition wrappersS : store wrapperCell :=
  {| view := wrappers;
     over f st := mkWorld (sessions st) (requests st) (headers st) (buffers st)
                    (f (wrappers st)) (recorders st) (pools st) (stdout st) (calls st) (now st) |}.
Definition recordersS : store recorder :=
  {| view := recorders;
     over f st := mkWorld (sessions st) (requests st) (headers st) (buffers st)
                    (wrappers st) (f (recorders st)) (pools st) (stdout st) (calls st) (now st) |}.
Definition poolsS : store (list ptr) :=
  {| view := pools;
     over f st := mkWorld (sessions st) (requests st) (headers st) (buffers st)
                    (wrappers st) (recorders st) (f (pools st)) (stdout st) (calls st) (now st) |}.
Definition stdoutS : store string :=
  {| view := stdout;
     over f st := mkWorld (sessions st) (requests st) (headers st) (buffers st)
                    (wrappers st) (recorders st) (pools st) (f (stdout st)) (calls st) (now st) |}.
Definition callsS : store codec_call :=
  {| view := calls;
     over f st := mkWorld (sessions st) (requests st) (headers st) (buffers st)
                    (wrappers st) (recorders st) (pools st) (stdout st) (f (calls st)) (now st) |}.

(** ** Computations: state passing with panics *)

Inductive outcome (A : Type) :=
  | Ok (a : A) (st : world)
  | Panic (msg : string).
Arguments Ok {A} _ _.
Arguments Panic {A} _.

Definition M (A : Type) : Type := world → outcome A.

Global Instance M_ret : MRet M := λ A a st, Ok a st.
Global Instance M_bind : MBind M := λ A B f m st,
  match m st with
  | Ok a st' => f a st'
  | Panic msg => Panic msg
  end.

Definition panic {A} (msg : string) : M A := λ _, Panic msg.
Definition gets {A} (f : world → A) : M A := λ st, Ok (f st) st.
Definition modify (f : world → world) : M unit := λ st, Ok tt (f st).

Definition nil_deref : string := "invalid memory address or nil pointer dereference".

(** [new(T)] / [&T{...}]: a fresh object at the end of its store. *)
Definition alloc {A} (S : store A) (a : A) : M ptr :=
  λ st, Ok (length (view S st)) (over S (λ l, l ++ [a]) st).

(** [*p]. *)
Definition load {A} (S : store A) (p : ptr) : M A :=
  λ st, match view S st !! p with
        | Some a => Ok a st
        | None => Panic nil_deref
        end.

(** [*p = a]. *)
Definition assign {A} (S : store A) (p : ptr) (a : A) : M unit :=
  λ st, match view S st !! p with
        | Some _ => Ok tt (over S (λ l, <[p:=a]> l) st)
        | None => Panic nil_deref
        end.

(** [fmt.Printf(line)]. *)
Definition Printf (line : string) : M unit :=
  modify (over stdoutS (λ l, l ++ [line])).

(** [m[key] = value]: a panic on a nil map. *)
Definition map_assign (m : gomap) (key : string) (value : iface) : M gomap :=
  match m with
  | Some g => mret (Some (<[key:=value]> g))
  | None => panic "assignment to entry in nil map"
  end.

(** ** The codec (gorilla/securecookie), an external collaborator *)

(** A [*securecookie.SecureCookie]: the key it was made with and the
    maximum age set on it. *)
Record SecureCookie := mkSecureCookie {
  hashKey : string;
  maxAge : Z;
}.

Inductive result (A : Type) :=
  | Success (a : A)
  | Failure (err : error).
Arguments Success {A} _.
Arguments Failure {A} _.

(** What the codec computes.  [encode sc name value] is the opaque cookie
    value or an error; [decode sc name value dst] is what [Decode] leaves
    in [*dst], with its error if any. *)
Record Codec := mkCodec {
  encode : SecureCookie → string → session → result string;
  decode : SecureCookie → string → string → session → session * option error;
}.

(** Modelled from the spec: securecookie is not among the repository's
    sources; of its expiry rule the spec says that a max-age of 0
    disables expiry and that any other value bounds the cookie's age. *)
Definition expiry_disabled (sc : SecureCookie) : Prop := maxAge sc = 0%Z.

(** ** The session manager *)

Definition defaultSessionName : string := "_session".
Definition defaultMaxAge : Z := (86400 * 365)%Z.

(** [type Session struct]: the manager. *)
Record Session := mkSessionManager {
  sc : SecureCookie;
  name : string;
  quiet : bool;
}.

Record Options := mkOptions {
  Name : string;
  MaxAge : Z;
  Quiet : bool;
}.

(** [var o Options]. *)
Definition zero_Options : Options := {| Name := ""; MaxAge := 0; Quiet := false |}.

(** [securecookie.New(secret, nil)] followed by [sc.MaxAge(age)]. *)
Definition securecookie_New (secret : string) (age : Z) : SecureCookie :=
  {| hashKey := secret; maxAge := age |}.

(** [New(secret, opts...)]: the last of [opts] counts. *)
Definition New (secret : string) (opts : list Options) : Session :=
  let o := foldl (λ _ opt, opt) zero_Options opts in
  let oName := if decide (Name o = "") then defaultSessionName else Name o in
  let oMaxAge :=
    if decide (MaxAge o = 0%Z) then defaultMaxAge
    else if decide (MaxAge o = (-1)%Z) then 0%Z
    else MaxAge o in
  {| sc := securecookie_New secret oMaxAge; name := oName; quiet := Quiet o |}.

(** What [init] makes of the fields of a record: a nil map becomes an
    empty one, any other map is kept. *)
Definition init_fields (v : session) : session :=
  {| Data := match Data v with None => Some ∅ | Some m => Some m end;
     Flashes := match Flashes v with None => Some ∅ | Some m => Some m end |}.

(** [func (s *session) init()]. *)
Definition session_init (s : ptr) : M unit :=
  v ← load sessionsS s;
  assign sessionsS s (init_fields v).

(** A value of the interface [http.ResponseWriter]: its method table.
    [Header()] returns the same map for the life of the writer. *)
Record ResponseWriter := mkResponseWriter {
  Header : ptr;
  Write : string → M (Z * option error);
  WriteHeader : Z → M unit;
}.

(** [http.SetCookie(w, cookie)]:
    [if v := cookie.String(); v != "" { w.Header().Add("Set-Cookie", v) }]. *)
Definition SetCookie (w : ResponseWriter) (cookie : Cookie) : M unit :=
  match Cookie_String cookie with
  | Some v =>
    h ← load headersS (Header w);
    assign headersS (Header w) (Header_Add h "Set-Cookie" v)
  | None => mret tt
  end.

(** ** The host's response writer *)

(** [checkWriteHeaderCode] of net/http. *)
Definition checkWriteHeaderCode (code : Z) : M unit :=
  if decide (code < 100 ∨ code > 999)%Z
  then panic ("invalid WriteHeader code " +:+ pretty code)
  else mret tt.

(** A recording writer in the manner of [httptest.ResponseRecorder], for
    the recorder at [w] with its header map at [h].  The first
    [WriteHeader] checks the status code, fixes it and takes a copy of the
    header map, the lines that go out; any later one is ignored. *)
Definition recorder_WriteHeader (w h : ptr) (code : Z) : M unit :=
  rec ← load recordersS w;
  match recCode rec with
  | Some _ => mret tt
  | None =>
    checkWriteHeaderCode code;;
    m ← load headersS h;
    assign recordersS w {| recCode := Some code; snapHeader := Some m; recBody := recBody rec |}
  end.

(** Before the first bytes of a writer whose header was not written: a
    [Content-Type] is detected unless one is set or the response has a
    [Transfer-Encoding], and the header is written with status 200. *)
Definition recorder_writeHeader (w h : ptr) (b : string) : M unit :=
  rec ← load recordersS w;
  match recCode rec with
  | Some _ => mret tt
  | None =>
    m ← load headersS h;
    (if decide (is_Some (m !! "Content-Type")) then mret tt
     else if Header_has m "Transfer-Encoding" then mret tt
     else assign headersS h (Header_Set m "Content-Type" (HDetected b)));;
    recorder_WriteHeader w h 200
  end.

Definition recorder_Write (w h : ptr) (data : string) : M (Z * option error) :=
  recorder_writeHeader w h data;;
  rec ← load recordersS w;
  assign recordersS w {| recCode := recCode rec; snapHeader := snapHeader rec;
                         recBody := recBody rec +:+ data |};;
  mret (Z.of_nat (String.length data), None).

Definition recorder_writer (w : ptr) (h : ptr) : ResponseWriter :=
  {| Header := h; Write := recorder_Write w h; WriteHeader := recorder_WriteHeader w h |}.

Section Sessions.

Variable codec : Codec.

(** [s.sc.Decode(name, value, dst)]. *)
Definition sc_Decode (s : Session) (value : string) (dst : ptr) : M (option error) :=
  modify (over callsS (λ l, l ++ [CallDecode (name s) value]));;
  v ← load sessionsS dst;
  let '(v', err) := decode codec (sc s) (name s) value v in
  assign sessionsS dst v';;
  mret err.

(** [s.sc.Encode(name, src)]. *)
Definition sc_Encode (s : Session) (src : ptr) : M (result string) :=
  v ← load sessionsS src;
  modify (over callsS (λ l, l ++ [CallEncode (name s) v]));;
  mret (encode codec (sc s) (name s) v).

Definition decode_failed (err : error) : string :=
  "sessions: [ERROR] failed to decode session from cookie: " +:+ err.
Definition encode_failed (err : error) : string :=
  "sessions: [ERROR} failed to encode cookie: " +:+ err.

(** [if !s.quiet { fmt.Printf(line) }]. *)
Definition log_unless_quiet (s : Session) (line : string) : M unit :=
  if quiet s then mret tt else Printf line.

(** [fromReq] returns the record of the request: the one on its context
    when there is one, otherwise one made from the session cookie. *)
Definition fromReq (s : Session) (r : ptr) : M ptr :=
  req ← load requestsS r;
  match ctxValue (reqContext req) with
  | Some ss => mret ss
  | None =>
    match Request_Cookie (reqCookies req) (name s) with
    | None =>
      ss ← alloc sessionsS zero_session;
      session_init ss;;
      mret ss
    | Some value =>
      ss ← alloc sessionsS zero_session;
      err ← sc_Decode s value ss;
      match err with
      | Some e =>
        log_unless_quiet s (decode_failed e);;
        session_init ss;;
        mret ss
      | None => mret ss
      end
    end
  end.

(** The cookie both [saveCtx] and [TemplMiddleware] issue. *)
Definition session_cookie (s : Session) (encoded : string) (t : Z) : Cookie :=
  {| cName := name s;
     cMaxAge := defaultMaxAge;
     cExpires := (t + defaultMaxAge)%Z;
     cValue := encoded;
     cPath := "/";
     cHttpOnly := true;
     cSecure := true |}.

(** [saveCtx] puts the record on the context of the request, in place,
    and sets the session cookie on [w] when the codec encodes the record. *)
Definition saveCtx (s : Session) (w : ResponseWriter) (r : ptr) (session : ptr) : M unit :=
  req ← load requestsS r;
  let ctx := WithValue (reqContext req) session in
  r2 ← alloc requestsS {| reqContext := ctx; reqCookies := reqCookies req; reqPath := reqPath req |};
  req2 ← load requestsS r2;
  assign requestsS r req2;;
  encoded ← sc_Encode s session;
  match encoded with
  | Failure err => log_unless_quiet s (encode_failed err)
  | Success value =>
    t ← gets now;
    SetCookie w (session_cookie s value t)
  end.

(** The accessors.  [Set_] and [Flashes_] are the methods [Set] and
    [Flashes]: the first name is a keyword here, the second is the field
    of [session]. *)
Definition Get (s : Session) (r : ptr) (key : string) : M iface :=
  data ← fromReq s r;
  v ← load sessionsS data;
  mret (map_index (Data v) key).

Definition List (s : Session) (r : ptr) : M gomap :=
  data ← fromReq s r;
  v ← load sessionsS data;
  mret (Data v).

Definition Set_ (s : Session) (w : ResponseWriter) (r : ptr) (key : string) (value : iface) : M unit :=
  data ← fromReq s r;
  v ← load sessionsS data;
  m ← map_assign (Data v) key value;
  assign sessionsS data {| Data := m; Flashes := Flashes v |};;
  saveCtx s w r data.

Definition Delete (s : Session) (w : ResponseWriter) (r : ptr) (key : string) : M iface :=
  data ← fromReq s r;
  v ← load sessionsS data;
  let value := map_index (Data v) key in
  assign sessionsS data {| Data := map_delete (Data v) key; Flashes := Flashes v |};;
  saveCtx s w r data;;
  mret value.

Definition Reset (s : Session) (w : ResponseWriter) (r : ptr) : M unit :=
  fresh ← alloc sessionsS {| Data := Some ∅; Flashes := Some ∅ |};
  saveCtx s w r fresh.

Definition Flash (s : Session) (w : ResponseWriter) (r : ptr) (key : string) (value : iface) : M unit :=
  data ← fromReq s r;
  v ← load sessionsS data;
  m ← map_assign (Flashes v) key value;
  assign sessionsS data {| Data := Data v; Flashes := m |};;
  saveCtx s w r data.

Definition Flashes_ (s : Session) (w : ResponseWriter) (r : ptr) : M (gmap string iface) :=
  data ← fromReq s r;
  v ← load sessionsS data;
  let values := map_range_copy (Flashes v) in
  assign sessionsS data {| Data := Data v; Flashes := Some ∅ |};;
  saveCtx s w r data;;
  mret values.

(** *** The buffering middleware *)

(** [http.Handler], by its [ServeHTTP]. *)
Definition Handler : Type := ResponseWriter → ptr → M unit.

(** A [*responseWrapper]: the cell holding [b] and [c], and [w]. *)
Record responseWrapper := mkResponseWrapper {
  rw_cell : ptr;
  rw_w : ResponseWriter;
}.

Definition responseWrapper_Header (rw : responseWrapper) : ptr :=
  Header (rw_w rw).

Definition responseWrapper_Write (rw : responseWrapper) (data : string)
  : M (Z * option error) :=
  cell ← load wrappersS (rw_cell rw);
  buf ← load buffersS (rw_b cell);
  assign buffersS (rw_b cell) (buf +:+ data);;
  mret (Z.of_nat (String.length data), None).

Definition responseWrapper_WriteHeader (rw : responseWrapper) (statusCode : Z) : M unit :=
  cell ← load wrappersS (rw_cell rw);
  assign wrappersS (rw_cell rw) {| rw_b := rw_b cell; rw_c := statusCode |}.

(** [b.WriteTo(w)] of [bytes.Buffer]: one [Write] of the unread bytes when
    there are any, then the buffer is reset. *)
Definition Buffer_WriteTo (b : ptr) (w : ResponseWriter) : M (Z * option error) :=
  buf ← load buffersS b;
  if decide (buf = "") then
    assign buffersS b "";;
    mret (0%Z, None)
  else
    '(m, e) ← Write w buf;
    assign buffersS b (String.substring (Z.to_nat m) (String.length buf - Z.to_nat m) buf);;
    match e with
    | Some err => mret (m, Some err)
    | None =>
      if decide (m = Z.of_nat (String.length buf)) then
        assign buffersS b "";;
        mret (m, None)
      else mret (m, Some "short write")
    end.

Definition responseWrapper_Flush (rw : responseWrapper) : M (Z * option error) :=
  cell ← load wrappersS (rw_cell rw);
  WriteHeader (rw_w rw) (rw_c cell);;
  Buffer_WriteTo (rw_b cell) (rw_w rw).

(** A [*responseWrapper] used as an [http.ResponseWriter]. *)
Definition wrapper_writer (rw : responseWrapper) : ResponseWriter :=
  {| Header := responseWrapper_Header rw;
     Write := responseWrapper_Write rw;
     WriteHeader := responseWrapper_WriteHeader rw |}.

(** [pool.Get()] of a [sync.Pool] whose [New] is [new(bytes.Buffer)]. *)
Definition Pool_Get (pool : ptr) : M ptr :=
  items ← load poolsS pool;
  match items with
  | b :: rest => assign poolsS pool rest;; mret b
  | [] => alloc buffersS ""
  end.

Definition Pool_Put (pool : ptr) (b : ptr) : M unit :=
  items ← load poolsS pool;
  assign poolsS pool (b :: items).

Definition flush_failed (err : error) : string :=
  "sessions: [ERROR] failed to write http response in call to sessions.TemplMiddleware: " +:+ err.

(** The handler [TemplMiddleware] returns, given its pool, in the three
    parts of its body.  First, up to the call of the wrapped handler: the
    record is read from the cookie, a buffer is taken from the pool and
    wrapped around [w], and the record is put on the context of a copy
    of the request. *)
Definition templ_enter (s : Session) (pool : ptr) (w : ResponseWriter) (r : ptr)
  : M (ptr * ptr * responseWrapper * ptr) :=
  session ← alloc sessionsS zero_session;
  req ← load requestsS r;
  match Request_Cookie (reqCookies req) (name s) with
  | None => session_init session
  | Some value =>
    err ← sc_Decode s value session;
    match err with
    | Some e =>
      log_unless_quiet s (decode_failed e);;
      session_init session
    | None => mret tt
    end
  end;;
  b ← Pool_Get pool;
  assign buffersS b "";;
  cell ← alloc wrappersS {| rw_b := b; rw_c := 200 |};
  let wrapper := {| rw_cell := cell; rw_w := w |} in
  let ctx := WithValue (reqContext req) session in
  r' ← alloc requestsS {| reqContext := ctx; reqCookies := reqCookies req; reqPath := reqPath req |};
  mret (session, b, wrapper, r').

(** Last, after the wrapped handler has returned: the record is encoded,
    the cookie set, the wrapper flushed and the buffer put back. *)
Definition templ_leave (s : Session) (pool : ptr) (session b : ptr)
    (wrapper : responseWrapper) : M unit :=
  encoded ← sc_Encode s session;
  match encoded with
  | Failure err => log_unless_quiet s (encode_failed err)
  | Success value =>
    t ← gets now;
    SetCookie (wrapper_writer wrapper) (session_cookie s value t);;
    '(_, err) ← responseWrapper_Flush wrapper;
    match err with
    | Some e => log_unless_quiet s (flush_failed e)
    | None => mret tt
    end;;
    Pool_Put pool b
  end.

Definition TemplMiddleware_ServeHTTP (s : Session) (next : Handler) (pool : ptr)
  : Handler := λ w r,
  '(session, b, wrapper, r') ← templ_enter s pool w r;
  next (wrapper_writer wrapper) r';;
  templ_leave s pool session b wrapper.

Definition TemplMiddleware (s : Session) (next : Handler) : M Handler :=
  pool ← alloc poolsS [];
  mret (TemplMiddleware_ServeHTTP s next pool).

Definition flashes_ctx_warning : string :=
  "sessions: [WARNING] FlashesCtx was called but the session is nil - did you remember to wrap your handler in sessions.TemplMiddleware?".

Definition FlashesCtx (s : Session) (ctx : Context) : M (gmap string iface) :=
  match ctxValue ctx with
  | Some ss =>
    v ← load sessionsS ss;
    let flashes := map_range_copy (Flashes v) in
    assign sessionsS ss {| Data := Data v; Flashes := map_clear (Flashes v) |};;
    mret flashes
  | None =>
    log_unless_quiet s flashes_ctx_warning;;
    mret ∅
  end.

(** Modelled from the spec: the form of [TemplMiddleware] that also takes
    request paths to exclude is missing from the sources at hand, where
    [TemplMiddleware] takes the handler alone; a test calls it as
    [s.TemplMiddleware(mux, "/skip-me")].  The spec: the middleware "wraps
    a handler, optionally given a set of request paths to exclude from
    session decoding/attachment".  A request to an excluded path goes to
    the wrapped handler as it came; any other request is served as
    [TemplMiddleware] serves it. *)
Definition TemplMiddlewareExcluding (s : Session) (next : Handler)
    (exclude : list string) : M Handler :=
  pool ← alloc poolsS [];
  mret (λ w r,
    req ← load requestsS r;
    if decide (reqPath req ∈ exclude) then next w r
    else TemplMiddleware_ServeHTTP s next pool w r).

(** A handler that reads the flashes through the context alone, as a
    template does, and hands them to [render]. *)
Definition flash_view_handler (s : Session)
    (render : gmap string iface → ResponseWriter → M unit) : Handler := λ w r,
  req ← load requestsS r;
  flashes ← FlashesCtx s (reqContext req);
  render flashes w.

(** [Flash] called once for each pair, in order. *)
Fixpoint flash_all (s : Session) (w : ResponseWriter) (r : ptr)
    (pairs : list (string * iface)) : M unit :=
  match pairs with
  | [] => mret tt
  | (key, value) :: rest => Flash s w r key value;; flash_all s w r rest
  end.

End Sessions.

(** [w.Header()["Set-Cookie"]]: the cookie lines set on [w] so far. *)
Definition cookies_of (st : world) (w : ResponseWriter) : list hval :=
  default [] (headers st !! Header w ≫= λ h, h !! "Set-Cookie").

(** ** Specification vocabulary *)

(** [m] run from [st] does not panic, and its result satisfies [Q]. *)
Definition wp {A} (m : M A) (Q : A → world → Prop) (st : world) : Prop :=
  match m st with
  | Ok a st' => Q a st'
  | Panic _ => False
  end.

(** [m], when it returns, leaves the world related by [R] to the one it
    started from. *)
Definition keeps {A} (R : relation world) (m : M A) : Prop :=
  ∀ st a st', m st = Ok a st' → R st st'.

(** What [fromReq] leaves alone: everything but the session objects, the
    codec's call log and the printed lines. *)
Definition same_outside (st st' : world) : Prop :=
  requests st' = requests st ∧ headers st' = headers st ∧
  buffers st' = buffers st ∧ wrappers st' = wrappers st ∧
  recorders st' = recorders st ∧ pools st' = pools st ∧ now st' = now st.

(** The request [req] with the record [ss] attached to its context. *)
Definition attach (req : Request) (ss : ptr) : Request :=
  {| reqContext := WithValue (reqContext req) ss;
     reqCookies := reqCookies req; reqPath := reqPath req |}.

(** The world right after [saveCtx] has attached [ss] to [r] and asked the
    codec to encode the record [v]. *)
Definition committed (s : Session) (r ss : ptr) (req : Request) (v : session)
    (st : world) : world :=
  over callsS (λ l, l ++ [CallEncode (name s) v])
    (over requestsS (λ l, <[r := attach req ss]> (l ++ [attach req ss])) st).

(** The request [r] carries the record [v], stored at [ss], on its context. *)
Definition cached (st : world) (r ss : ptr) (v : session) : Prop :=
  ∃ req, requests st !! r = Some req ∧
         ctxValue (reqContext req) = Some ss ∧
         sessions st !! ss = Some v.

(** The lines [http.SetCookie] adds for [c]: its line, or none when its
    name is not valid. *)
Definition cookie_lines (c : Cookie) : list hval := option_list (Cookie_String c).

(** The header map [hd] once [http.SetCookie] was called with [c]. *)
Definition with_cookie (hd : http_Header) (c : Cookie) : http_Header :=
  match Cookie_String c with
  | Some line => Header_Add hd "Set-Cookie" line
  | None => hd
  end.

(** The recorder [rec] once [WriteHeader(code)] has returned, [hd] being
    its header map at that time. *)
Definition header_written (rec : recorder) (code : Z) (hd : http_Header) : recorder :=
  match recCode rec with
  | Some _ => rec
  | None => {| recCode := Some code; snapHeader := Some hd; recBody := recBody rec |}
  end.

(** The recorder [rec] with the bytes [data] after those it has. *)
Definition body_written (rec : recorder) (data : string) : recorder :=
  {| recCode := recCode rec; snapHeader := snapHeader rec;
     recBody := recBody rec +:+ data |}.

(** What a commit of the record [v] of request [r] does to the world. *)
Definition commit_effect (codec : Codec) (s : Session) (w : ResponseWriter)
    (r ss : ptr) (v : session) (st st' : world) : Prop :=
  cached st' r ss v ∧
  sessions st' = sessions st ∧
  calls st' = calls st ++ [CallEncode (name s) v] ∧
  now st' = now st ∧
  is_Some (headers st' !! Header w) ∧
  match encode codec (sc s) (name s) v with
  | Success encoded =>
    cookies_of st' w = cookies_of st w ++ cookie_lines (session_cookie s encoded (now st)) ∧
    (isCookieNameValid (name s) = false → headers st' = headers st)
  | Failure _ => headers st' = headers st
  end.

(** The record [fromReq] makes from the cookie value [value]: what the
    codec decoded, its nil maps replaced only when the codec reported an
    error. *)
Definition decoded_record (codec : Codec) (s : Session) (value : string) : session :=
  let '(v, err) := decode codec (sc s) (name s) value zero_session in
  match err with
  | Some _ => init_fields v
  | None => v
  end.

(** The record [fromReq] makes for a request whose context carries none. *)
Definition request_record (codec : Codec) (s : Session) (req : Request) : session :=
  match Request_Cookie (reqCookies req) (name s) with
  | None => init_fields zero_session
  | Some value => decoded_record codec s value
  end.

(** The codec calls [fromReq] makes for such a request. *)
Definition request_decodes (s : Session) (req : Request) : list codec_call :=
  match Request_Cookie (reqCookies req) (name s) with
  | None => []
  | Some value => [CallDecode (name s) value]
  end.

(** The mapping that flashing [pairs] in order builds on top of [pending]. *)
Definition flashed (pending : gmap string iface) (pairs : list (string * iface))
  : gmap string iface :=
  foldl (λ m kv, <[kv.1 := kv.2]> m) pending pairs.

(** ** Example inputs *)

(** A stand-in for the codec.  It refuses to encode a record that has the
    entry ["huge"] (as securecookie refuses a value over its length limit).
    It decodes ["ben"] and ["notice"] to the records below, decodes
    ["bare"] without error and without writing either map (the encoding
    of a record whose maps were nil), and rejects anything else. *)
Definition test_codec : Codec :=
  {| encode _ _ v :=
       if decide (is_Some (default ∅ (Data v) !! "huge"))
       then Failure "securecookie: the value is too long"
       else Success "sealed";
     decode _ _ value dst :=
       if decide (value = "ben") then
         ({| Data := Some {["name" := IString "Ben"]}; Flashes := Some ∅ |}, None)
       else if decide (value = "notice") then
         ({| Data := Some ∅; Flashes := Some {["notice" := IString "hi"]} |}, None)
       else if decide (value = "bare") then (dst, None)
       else (dst, Some "securecookie: the value is not valid") |}.

(** One inbound request for [path] with the given cookies, and the host's
    response writer with its empty header map. *)
Definition inbound (path : string) (cs : list (string * string)) : world :=
  {| sessions := [];
     requests := [ {| reqContext := {| ctxValue := None |};
                      reqCookies := cs; reqPath := path |} ];
     headers := [∅]; buffers := []; wrappers := [];
     recorders := [ {| recCode := None; snapHeader := None; recBody := "" |} ];
     pools := []; stdout := []; calls := []; now := 1700000000 |}.

Definition rr : ResponseWriter := recorder_writer 0 0.

(** A handler that stores an entry the codec will refuse, then answers
    201 with a body. *)
Definition huge_handler (s : Session) : Handler := λ w r,
  Set_ test_codec s w r "huge" (IString "a value over the length limit");;
  WriteHeader w 201;;
  Write w "created";;
  mret tt.

(** The world as a handler under the middleware may leave it: the record
    of the request, the wrapper with its buffered body, and the pool. *)
Definition buffered : world :=
  {| sessions := [ {| Data := Some {["name" := IString "Ben"]}; Flashes := Some ∅ |} ];
     requests := [ {| reqContext := {| ctxValue := None |};
                      reqCookies := []; reqPath := "/" |} ];
     headers := [∅]; buffers := ["hello"];
     wrappers := [ {| rw_b := 0; rw_c := 200 |} ];
     recorders := [ {| recCode := None; snapHeader := None; recBody := "" |} ];
     pools := [[]]; stdout := []; calls := []; now := 1700000000 |}.

(** A renderer that writes whether it was given any flash. *)
Definition count_flashes (flashes : gmap string iface) (w : ResponseWriter) : M unit :=
  Write w (if decide (flashes = ∅) then "no flashes" else "some flashes");;
  mret tt.

(** ** Further vocabulary *)

(** What the accessors leave alone whatever writer they are given: what
    the host's writers have received, the buffers, the wrappers, the
    pools and the clock. *)
Definition same_response (st st' : world) : Prop :=
  recorders st' = recorders st ∧ buffers st' = buffers st ∧
  wrappers st' = wrappers st ∧ pools st' = pools st ∧ now st' = now st.

(** Nothing was printed. *)
Definition same_stdout (st st' : world) : Prop := stdout st' = stdout st.

(** The header map [hd'] has every line of [hd]: the same values under
    every key but ["Set-Cookie"], where lines may have been added after
    those of [hd]. *)
Definition header_extends (hd hd' : http_Header) : Prop :=
  (∀ key, key ≠ "Set-Cookie" → hd' !! key = hd !! key) ∧
  default [] (hd !! "Set-Cookie") `prefix_of` default [] (hd' !! "Set-Cookie").

(** Every header map of [hs] is still there in [hs'], extended. *)
Definition header_maps_extend (hs hs' : list http_Header) : Prop :=
  ∀ i hd, hs !! i = Some hd → ∃ hd', hs' !! i = Some hd' ∧ header_extends hd hd'.

Definition headers_extend (st st' : world) : Prop :=
  header_maps_extend (headers st) (headers st').

(** The line [saveCtx] prints for the record [v]. *)
Definition commit_log (codec : Codec) (s : Session) (v : session) : list string :=
  match encode codec (sc s) (name s) v with
  | Success _ => []
  | Failure err => if quiet s then [] else [encode_failed err]
  end.

(** The line [fromReq] prints for a request whose context carries no
    record. *)
Definition request_log (codec : Codec) (s : Session) (req : Request) : list string :=
  match Request_Cookie (reqCookies req) (name s) with
  | None => []
  | Some value =>
    match (decode codec (sc s) (name s) value zero_session).2 with
    | Some err => if quiet s then [] else [decode_failed err]
    | None => []
    end
  end.

(** What a mutating accessor does to the world, when it found the record
    of the request at [data] (leaving the world [st1]) and made [v'] of
    it: the record is updated in place and committed. *)
Definition accessor_effect (codec : Codec) (s : Session) (w : ResponseWriter)
    (r data : ptr) (v' : session) (st st1 st2 : world) : Prop :=
  cached st2 r data v' ∧
  sessions st2 = <[data := v']> (sessions st1) ∧
  calls st2 = calls st1 ++ [CallEncode (name s) v'] ∧
  stdout st2 = stdout st1 ++ commit_log codec s v' ∧
  is_Some (headers st2 !! Header w) ∧
  match encode codec (sc s) (name s) v' with
  | Success encoded =>
    cookies_of st2 w = cookies_of st w ++ cookie_lines (session_cookie s encoded (now st)) ∧
    (isCookieNameValid (name s) = false → headers st2 = headers st)
  | Failure _ => headers st2 = headers st
  end.

(** What is equal in two worlds that differ by what a handler wrote to a
    [responseWrapper]: everything but the wrappers and the buffers. *)
Definition same_but_wrappers (st st' : world) : Prop :=
  sessions st' = sessions st ∧ requests st' = requests st ∧
  headers st' = headers st ∧ recorders st' = recorders st ∧
  pools st' = pools st ∧ stdout st' = stdout st ∧
  calls st' = calls st ∧ now st' = now st.

(** A call a handler makes on its response writer. *)
Inductive write_op :=
  | OpWriteHeader (statusCode : Z)
  | OpWrite (data : string).

(** The calls [ops] made on [w], in order (what [Write] returns is
    dropped, as handlers do). *)
Fixpoint write_all (w : ResponseWriter) (ops : list write_op) : M unit :=
  match ops with
  | [] => mret tt
  | OpWriteHeader statusCode :: rest => WriteHeader w statusCode;; write_all w rest
  | OpWrite data :: rest => Write w data;; write_all w rest
  end.

(** The status code of the last [WriteHeader] among [ops], [c] when there
    is none. *)
Definition last_status (c : Z) (ops : list write_op) : Z :=
  foldl (λ c op, match op with OpWriteHeader c' => c' | OpWrite _ => c end) c ops.

(** The bytes of the [Write]s among [ops], in order. *)
Fixpoint written (ops : list write_op) : string :=
  match ops with
  | [] => ""
  | OpWriteHeader _ :: rest => written rest
  | OpWrite data :: rest => data +:+ written rest
  end.

(** The handler of the route ["/flash"] in the tests of the middleware:
    [s.Flash(w, r, key, flash); w.WriteHeader(http.StatusNoContent)]. *)
Definition flash_route (codec : Codec) (s : Session) (key : string) (flash : iface)
  : Handler := λ w r,
  Flash codec s w r key flash;;
  WriteHeader w 204.

(** A handler that resets the session. *)
Definition reset_route (codec : Codec) (s : Session) : Handler := λ w r,
  Reset codec s w r.

(** The buffer [pool.Get()] returns in the world [st]: the first of the
    buffers put back, or a new one. *)
Definition pool_pick (items : list ptr) (st : world) : ptr :=
  match items with
  | b :: _ => b
  | [] => length (buffers st)
  end.

(** What [TemplMiddleware] has set up when it calls the wrapped handler
    for the request [req] at [r], from the world [st] to [st1]: a new
    record read from the cookie, a copy of the request that carries it,
    and a wrapper with status 200 around an empty buffer. *)
Definition entered (codec : Codec) (s : Session) (pool : ptr) (req : Request)
    (items : list ptr) (st st1 : world) : Prop :=
  sessions st1 = sessions st ++ [request_record codec s req] ∧
  requests st1 = requests st ++ [attach req (length (sessions st))] ∧
  wrappers st1 = wrappers st ++ [ {| rw_b := pool_pick items st; rw_c := 200 |} ] ∧
  buffers st1 !! pool_pick items st = Some "" ∧
  pools st1 = <[pool := tail items]> (pools st) ∧
  calls st1 = calls st ++ request_decodes s req ∧
  stdout st1 = stdout st ++ request_log codec s req ∧
  headers st1 = headers st ∧ recorders st1 = recorders st ∧ now st1 = now st.

(** What [TemplMiddleware] has done, from [st] to [st'], when it returns
    after a successful encode of the record [v] to [encoded]: the cookie
    is on the header map [h] of the host's writer [i], which was [hd];
    the writer, [rec] before, has had its header written with the status
    of the wrapper cell [c0] and then received the bytes [buf] of its
    buffer; the buffer is empty and [b] is back in the pool. *)
Definition flushed (s : Session) (pool b i h : ptr) (v : session) (encoded : string)
    (hd : http_Header) (c0 : wrapperCell) (buf : string) (rec : recorder)
    (items : list ptr) (st st' : world) : Prop :=
  let hd' := with_cookie hd (session_cookie s encoded (now st)) in
  headers st' = <[h := hd']> (headers st) ∧
  recorders st' = <[i := body_written (header_written rec (rw_c c0) hd') buf]> (recorders st) ∧
  buffers st' = <[rw_b c0 := ""]> (buffers st) ∧
  pools st' = <[pool := b :: items]> (pools st) ∧
  calls st' = calls st ++ [CallEncode (name s) v] ∧
  sessions st' = sessions st ∧ requests st' = requests st ∧
  wrappers st' = wrappers st ∧ stdout st' = stdout st ∧ now st' = now st.

(** ** Further example inputs *)

(** A stand-in for the codec that decodes what it encodes, for records of
    three shapes: the empty session, a session with the entry ["name"],
    and a session with the flash ["notice"]. *)
Definition tag_codec : Codec :=
  {| encode _ _ v :=
       match default ∅ (Flashes v) !! "notice", default ∅ (Data v) !! "name" with
       | Some (IString flash), None => Success ("F" +:+ flash)
       | None, Some (IString n) => Success ("N" +:+ n)
       | None, None => Success ""
       | _, _ => Failure "securecookie: the value is too long"
       end;
     decode _ _ value dst :=
       match value with
       | "" => ({| Data := Some ∅; Flashes := Some ∅ |}, None)
       | String tag rest =>
         if decide (String tag "" = "F") then
           ({| Data := Some ∅; Flashes := Some {["notice" := IString rest]} |}, None)
         else if decide (String tag "" = "N") then
           ({| Data := Some {["name" := IString rest]}; Flashes := Some ∅ |}, None)
         else (dst, Some "securecookie: the value is not valid")
       end |}.

(** One inbound request as in [inbound], in a world where a middleware
    has its pool, with one buffer put back that still holds bytes. *)
Definition pooled (path : string) (cs : list (string * string)) : world :=
  {| sessions := [];
     requests := [ {| reqContext := {| ctxValue := None |};
                      reqCookies := cs; reqPath := path |} ];
     headers := [∅]; buffers := ["stale"]; wrappers := [];
     recorders := [ {| recCode := None; snapHeader := None; recBody := "" |} ];
     pools := [[0]]; stdout := []; calls := []; now := 1700000000 |}.

(** A world with one record that has a flash pending. *)
Definition with_notice : world :=
  {| sessions := [ {| Data := Some {["name" := IString "Ben"]};
                      Flashes := Some {["notice" := IString "hi"]} |} ];
     requests := []; headers := []; buffers := []; wrappers := [];
     recorders := []; pools := []; stdout := []; calls := []; now := 1700000000 |}.

(** A template: the text of the flash ["notice"], if there is one. *)
Definition notice_template (flashes : gmap string iface) : list write_op :=
  match flashes !! "notice" with
  | Some (IString text) => [OpWrite text]
  | _ => []
  end.

(** ** Reasoning about computations *)


Lemma wp_Ok {A} (m : M A) Q st : wp m Q st ↔ ∃ a st', m st = Ok a st' ∧ Q a st'.
Proof.
  unfold wp. destruct (m st) as [a st'|msg]; split.
  - eauto.
  - by intros (? & ? & [= <- <-] & ?).
  - done.
  - by intros (? & ? & ? & ?).
Qed.

Lemma wp_ret {A} (a : A) Q st : Q a st → wp (mret a) Q st.
Proof. done. Qed.

Lemma wp_bind {A B} (m : M A) (f : A → M B) Q st :
  wp m (λ a, wp (f a) Q) st → wp (m ≫= f) Q st.
Proof. unfold wp, mbind, M_bind. by destruct (m st). Qed.

Lemma wp_run {A} (m : M A) Q st a st' : m st = Ok a st' → Q a st' → wp m Q st.
Proof. unfold wp. by intros ->. Qed.

Lemma wp_load {A} (S : store A) p Q st a :
  view S st !! p = Some a → Q a st → wp (load S p) Q st.
Proof. unfold wp, load. by intros ->. Qed.

Lemma wp_assign {A} (S : store A) p a Q st :
  is_Some (view S st !! p) →
  Q tt (over S (λ l, <[p:=a]> l) st) → wp (assign S p a) Q st.
Proof. unfold wp, assign. by intros [? ->]. Qed.

Lemma wp_alloc {A} (S : store A) a Q st :
  Q (length (view S st)) (over S (λ l, l ++ [a]) st) → wp (alloc S a) Q st.
Proof. done. Qed.

Lemma wp_modify f Q st : Q tt (f st) → wp (modify f) Q st.
Proof. done. Qed.

Lemma wp_gets {A} (f : world → A) Q st : Q (f st) st → wp (gets f) Q st.
Proof. done. Qed.

Lemma bind_Ok {A B} (m : M A) (f : A → M B) st a st' :
  m st = Ok a st' → (m ≫= f) st = f a st'.
Proof. intros H. unfold mbind, M_bind. by rewrite H. Qed.

Lemma load_Some {A} (S : store A) p a st :
  view S st !! p = Some a → load S p st = Ok a st.
Proof. intros H. unfold load. by rewrite H. Qed.

Lemma assign_Some {A} (S : store A) p a0 a st :
  view S st !! p = Some a0 →
  assign S p a st = Ok tt (over S (λ l, <[p:=a]> l) st).
Proof. intros H. unfold assign. by rewrite H. Qed.

Lemma bind_Ok_inv {A B} (m : M A) (f : A → M B) st b st2 :
  (m ≫= f) st = Ok b st2 → ∃ a st1, m st = Ok a st1 ∧ f a st1 = Ok b st2.
Proof. unfold mbind, M_bind. destruct (m st) as [a st1|]; [eauto|done]. Qed.

Lemma load_Ok_inv {A} (S : store A) p a st st' :
  load S p st = Ok a st' → view S st !! p = Some a ∧ st' = st.
Proof. unfold load. destruct (view S st !! p); naive_solver. Qed.


Section Keeps.
Context (R : relation world) `{!PreOrder R}.


Lemma keeps_ret {A} (a : A) : keeps R (mret a).
Proof. intros st a' st' [= <- <-]. reflexivity. Qed.

Lemma keeps_bind {A B} (m : M A) (f : A → M B) :
  keeps R m → (∀ a, keeps R (f a)) → keeps R (m ≫= f).
Proof.
  intros Hm Hf st b st2 (a & st1 & H1 & H2)%bind_Ok_inv.
  etrans; [by eapply Hm | by eapply Hf].
Qed.

Lemma keeps_load {A} (S : store A) p : keeps R (load S p).
Proof. intros st a st' [_ ->]%load_Ok_inv. reflexivity. Qed.

Lemma keeps_gets {A} (f : world → A) : keeps R (gets f).
Proof. intros st a st' [= <- <-]. reflexivity. Qed.

Lemma keeps_panic {A} msg : keeps R (@panic A msg).
Proof. by intros st a st'. Qed.

Lemma keeps_modify f : (∀ st, R st (f st)) → keeps R (modify f).
Proof. intros Hf st a st' [= <- <-]. apply Hf. Qed.

Lemma keeps_alloc {A} (S : store A) a :
  (∀ f st, R st (over S f st)) → keeps R (alloc S a).
Proof. intros Hf st p st' [= <- <-]. apply Hf. Qed.

Lemma keeps_assign {A} (S : store A) p a :
  (∀ f st, R st (over S f st)) → keeps R (assign S p a).
Proof.
  intros Hf st [] st'. unfold assign.
  destruct (view S st !! p); [|done]. intros [= <-]. apply Hf.
Qed.
End Keeps.


Global Instance same_outside_preorder : PreOrder same_outside.
Proof.
  split.
  - by intros st.
  - intros st1 st2 st3 (? & ? & ? & ? & ? & ? & ?) (? & ? & ? & ? & ? & ? & ?).
    repeat split; congruence.
Qed.

(** Frame conditions are proved by following the shape of the code. *)
Create HintDb keeps.

Ltac keeps_auto :=
  lazymatch goal with
  | |- keeps _ (mret _) => apply keeps_ret; apply _
  | |- keeps _ (_ ≫= _) =>
      apply keeps_bind; [apply _ | keeps_auto | intros ?; keeps_auto]
  | |- keeps _ (load _ _) => apply keeps_load; apply _
  | |- keeps _ (gets _) => apply keeps_gets; apply _
  | |- keeps _ (panic _) => apply keeps_panic
  | |- keeps _ (modify _) => apply keeps_modify; by intros; repeat split
  | |- keeps _ (Printf _) => apply keeps_modify; by intros; repeat split
  | |- keeps _ (alloc _ _) => apply keeps_alloc; by intros; repeat split
  | |- keeps _ (assign _ _ _) => apply keeps_assign; by intros; repeat split
  | |- keeps _ (match ?x with _ => _ end) => destruct x; keeps_auto
  | |- _ => eauto with keeps
  end.

Section Properties.

Variable codec : Codec.

(** *** The building blocks *)

Lemma wp_log_unless_quiet s line Q st :
  Q tt (if quiet s then st else over stdoutS (λ l, l ++ [line]) st) →
  wp (log_unless_quiet s line) Q st.
Proof. unfold log_unless_quiet. by destruct (quiet s). Qed.

Lemma wp_session_init ss v Q st :
  sessions st !! ss = Some v →
  Q tt (over sessionsS (λ l, <[ss := init_fields v]> l) st) →
  wp (session_init ss) Q st.
Proof.
  intros Hs HQ. unfold session_init.
  apply wp_bind. eapply wp_load; [exact Hs|].
  by apply wp_assign; [cbn; rewrite Hs|].
Qed.

Lemma Cookie_String_valid c :
  isCookieNameValid (cName c) = true → Cookie_String c = Some (HCookie c).
Proof. unfold Cookie_String. by intros ->. Qed.

Lemma Cookie_String_invalid c :
  isCookieNameValid (cName c) = false → Cookie_String c = None.
Proof. unfold Cookie_String. by intros ->. Qed.

Lemma cookie_lines_valid c :
  isCookieNameValid (cName c) = true → cookie_lines c = [HCookie c].
Proof. intros Hc. unfold cookie_lines. by rewrite Cookie_String_valid. Qed.

Lemma over_headers_id st i hd :
  headers st !! i = Some hd → over headersS (λ l, <[i := hd]> l) st = st.
Proof. intros Hi. destruct st. cbn in *. by rewrite list_insert_id. Qed.

Lemma over_recorders_id st i rec :
  recorders st !! i = Some rec → over recordersS (λ l, <[i := rec]> l) st = st.
Proof. intros Hi. destruct st. cbn in *. by rewrite list_insert_id. Qed.

Lemma wp_SetCookie w cookie h Q st :
  headers st !! Header w = Some h →
  Q tt (over headersS (λ l, <[Header w := with_cookie h cookie]> l) st) →
  wp (SetCookie w cookie) Q st.
Proof.
  intros Hh HQ. unfold SetCookie. unfold with_cookie in HQ.
  destruct (Cookie_String cookie) as [line|].
  - apply wp_bind. eapply wp_load; [exact Hh|].
    apply wp_assign; [cbn; by rewrite Hh|done].
  - apply wp_ret. by rewrite over_headers_id in HQ.
Qed.

Lemma cookies_of_SetCookie w cookie h st hs :
  headers st !! Header w = Some h →
  hs = <[Header w := with_cookie h cookie]> (headers st) →
  default [] (hs !! Header w ≫= λ h, h !! "Set-Cookie")
  = cookies_of st w ++ cookie_lines cookie.
Proof.
  intros Hh ->. unfold cookies_of, with_cookie, cookie_lines.
  rewrite list_lookup_insert_eq by (by eapply lookup_lt_Some).
  rewrite Hh. cbn. destruct (Cookie_String cookie) as [line|]; cbn.
  - unfold Header_Add. by rewrite lookup_insert_eq.
  - by rewrite app_nil_r.
Qed.

Lemma keeps_log_unless_quiet s line : keeps same_outside (log_unless_quiet s line).
Proof. unfold log_unless_quiet. keeps_auto. Qed.

Lemma keeps_session_init ss : keeps same_outside (session_init ss).
Proof. unfold session_init. keeps_auto. Qed.

Lemma keeps_sc_Decode s value dst : keeps same_outside (sc_Decode codec s value dst).
Proof. unfold sc_Decode. keeps_auto. Qed.

Local Hint Resolve keeps_log_unless_quiet keeps_session_init keeps_sc_Decode : keeps.

Lemma keeps_fromReq s r : keeps same_outside (fromReq codec s r).
Proof. unfold fromReq. keeps_auto. Qed.

Lemma fromReq_live s r data st st1 :
  fromReq codec s r st = Ok data st1 → is_Some (requests st1 !! r).
Proof.
  intros H. pose proof (keeps_fromReq _ _ _ _ _ H) as (-> & _).
  unfold fromReq in H. apply bind_Ok_inv in H as (req & ? & [Hr ->]%load_Ok_inv & _).
  by exists req.
Qed.

(** When the context already carries a record, [fromReq] returns it and
    touches nothing. *)
Lemma fromReq_cached s r req ss st :
  requests st !! r = Some req → ctxValue (reqContext req) = Some ss →
  fromReq codec s r st = Ok ss st.
Proof.
  intros Hr Hc. unfold fromReq, mbind, M_bind, load. cbn. by rewrite Hr, Hc.
Qed.

Lemma wp_saveCtx s w r ss Q st req v :
  requests st !! r = Some req →
  sessions st !! ss = Some v →
  match encode codec (sc s) (name s) v with
  | Failure err => wp (log_unless_quiet s (encode_failed err)) Q (committed s r ss req v st)
  | Success value =>
    wp (SetCookie w (session_cookie s value (now st))) Q (committed s r ss req v st)
  end →
  wp (saveCtx codec s w r ss) Q st.
Proof.
  intros Hr Hs H. unfold saveCtx.
  apply wp_bind. eapply wp_load; [exact Hr|].
  apply wp_bind, wp_alloc. cbn.
  apply wp_bind. eapply wp_load.
  { cbn. by apply list_lookup_middle. }
  apply wp_bind, wp_assign.
  { cbn. apply lookup_lt_is_Some. rewrite length_app. apply lookup_lt_Some in Hr. lia. }
  cbn. apply wp_bind. unfold sc_Encode.
  apply wp_bind. eapply wp_load; [exact Hs|].
  apply wp_bind, wp_modify, wp_ret.
  destruct (encode _ _ _ _); [|exact H].
  apply wp_bind, wp_gets. exact H.
Qed.

(** *** The commit step *)

Lemma saveCtx_Ok s w r ss st req v h :
  requests st !! r = Some req →
  sessions st !! ss = Some v →
  headers st !! Header w = Some h →
  ∃ st', saveCtx codec s w r ss st = Ok tt st' ∧ commit_effect codec s w r ss v st st'.
Proof.
  intros Hr Hs Hh.
  assert (Hr' : ∀ f, (<[r := attach req ss]> (requests st ++ [f])) !! r
                     = Some (attach req ss)).
  { intros f. apply list_lookup_insert_eq. rewrite length_app.
    apply lookup_lt_Some in Hr. lia. }
  cut (wp (saveCtx codec s w r ss) (λ _, commit_effect codec s w r ss v st) st).
  { intros ([] & st' & ? & ?)%wp_Ok. eauto. }
  eapply wp_saveCtx; [exact Hr|exact Hs|].
  unfold commit_effect, cached.
  destruct (encode codec (sc s) (name s) v) as [encoded|err].
  - eapply wp_SetCookie; [exact Hh|]. cbn. split_and!; try done.
    + exists (attach req ss). by rewrite Hr'.
    + apply lookup_lt_is_Some. rewrite length_insert. by eapply lookup_lt_Some.
    + unfold cookies_of at 1. cbn. by eapply cookies_of_SetCookie.
    + intros Hname. unfold with_cookie.
      rewrite Cookie_String_invalid by done. by rewrite list_insert_id.
  - apply wp_log_unless_quiet.
    destruct (quiet s); cbn; (split_and!; try done).
    + exists (attach req ss). by rewrite Hr'.
    + exists (attach req ss). by rewrite Hr'.
Qed.

Lemma map_range_copy_Some (g : gmap string iface) : map_range_copy (Some g) = g.
Proof.
  unfold map_range_copy.
  apply (map_fold_weak_ind (λ values m, values = m)); [done|].
  by intros k x m values _ ->.
Qed.

(** One step of each accessor, from a request whose record [fromReq]
    finds at [data]. *)
Lemma Flash_Ok s w r key value st data st1 v F :
  fromReq codec s r st = Ok data st1 →
  sessions st1 !! data = Some v →
  Flashes v = Some F →
  is_Some (headers st !! Header w) →
  ∃ st2, Flash codec s w r key value st = Ok tt st2 ∧
         cached st2 r data {| Data := Data v; Flashes := Some (<[key:=value]> F) |} ∧
         is_Some (headers st2 !! Header w).
Proof.
  intros Hfrom Hv HF [h Hh].
  pose proof (keeps_fromReq _ _ _ _ _ Hfrom) as (Hreq & Hhd & _).
  destruct (fromReq_live _ _ _ _ _ Hfrom) as [req Hr].
  set (v' := {| Data := Data v; Flashes := Some (<[key:=value]> F) |}).
  set (st1' := over sessionsS (λ l, <[data := v']> l) st1).
  destruct (saveCtx_Ok s w r data st1' req v' h) as (st2 & Hsave & Hc & _ & _ & _ & Hl & _).
  { exact Hr. }
  { cbn. apply list_lookup_insert_eq. by eapply lookup_lt_Some. }
  { cbn. by rewrite Hhd. }
  exists st2. split; [|done].
  unfold Flash.
  erewrite bind_Ok by exact Hfrom.
  erewrite bind_Ok by (apply load_Some; exact Hv).
  rewrite HF. erewrite bind_Ok by done.
  by erewrite bind_Ok by (eapply assign_Some; exact Hv).
Qed.

Lemma Flashes_Ok s w r st data st1 v :
  fromReq codec s r st = Ok data st1 →
  sessions st1 !! data = Some v →
  is_Some (headers st !! Header w) →
  ∃ st2, Flashes_ codec s w r st = Ok (map_range_copy (Flashes v)) st2 ∧
         cached st2 r data {| Data := Data v; Flashes := Some ∅ |} ∧
         is_Some (headers st2 !! Header w).
Proof.
  intros Hfrom Hv [h Hh].
  pose proof (keeps_fromReq _ _ _ _ _ Hfrom) as (Hreq & Hhd & _).
  destruct (fromReq_live _ _ _ _ _ Hfrom) as [req Hr].
  set (v' := {| Data := Data v; Flashes := Some ∅ |}).
  set (st1' := over sessionsS (λ l, <[data := v']> l) st1).
  destruct (saveCtx_Ok s w r data st1' req v' h) as (st2 & Hsave & Hc & _ & _ & _ & Hl & _).
  { exact Hr. }
  { cbn. apply list_lookup_insert_eq. by eapply lookup_lt_Some. }
  { cbn. by rewrite Hhd. }
  exists st2. split; [|done].
  unfold Flashes_.
  erewrite bind_Ok by exact Hfrom.
  erewrite bind_Ok by (apply load_Some; exact Hv).
  erewrite bind_Ok by (eapply assign_Some; exact Hv).
  by erewrite bind_Ok by exact Hsave.
Qed.

Lemma cached_fromReq s st r data v :
  cached st r data v → fromReq codec s r st = Ok data st.
Proof. intros (req & Hr & Hc & _). by eapply fromReq_cached. Qed.

Lemma cached_record st r data v : cached st r data v → sessions st !! data = Some v.
Proof. by intros (req & _ & _ & ?). Qed.

Lemma Get_cached s r key st data v :
  cached st r data v → Get codec s r key st = Ok (map_index (Data v) key) st.
Proof.
  intros Hc. unfold Get.
  erewrite bind_Ok by (eapply cached_fromReq; exact Hc).
  by erewrite bind_Ok by (apply load_Some; eapply cached_record; exact Hc).
Qed.

(** C1, as amended.  Set then Get within one request: on a request whose
    record (as [fromReq] finds it) has an initialised data map, [Set]
    returns without panic and a [Get] of the same key on the same request
    then returns the value that was set, unchanged and without touching
    the world.  A [Set-Cookie] line, the session cookie, has been added
    to the header map of [w] when the codec encodes the updated record
    and the name of the manager is a valid cookie name; otherwise no
    header map has changed. *)
Theorem Set_then_Get s w r key value st data st1 v m :
  fromReq codec s r st = Ok data st1 →
  sessions st1 !! data = Some v →
  Data v = Some m →
  is_Some (headers st !! Header w) →
  let v' := {| Data := Some (<[key:=value]> m); Flashes := Flashes v |} in
  ∃ st2,
    Set_ codec s w r key value st = Ok tt st2 ∧
    Get codec s r key st2 = Ok value st2 ∧
    match encode codec (sc s) (name s) v' with
    | Success encoded =>
      if isCookieNameValid (name s)
      then cookies_of st2 w
           = cookies_of st w ++ [HCookie (session_cookie s encoded (now st))]
      else headers st2 = headers st
    | Failure _ => headers st2 = headers st
    end.
Proof.
  intros Hfrom Hv Hm [h Hh] v'.
  pose proof (keeps_fromReq _ _ _ _ _ Hfrom) as (Hreq & Hhd & _ & _ & _ & _ & Hnow).
  destruct (fromReq_live _ _ _ _ _ Hfrom) as [req Hr].
  set (st1' := over sessionsS (λ l, <[data := v']> l) st1).
  destruct (saveCtx_Ok s w r data st1' req v' h)
    as (st2 & Hsave & Hc & _ & _ & _ & _ & Hck).
  { exact Hr. }
  { cbn. apply list_lookup_insert_eq. by eapply lookup_lt_Some. }
  { cbn. by rewrite Hhd. }
  exists st2. split_and!.
  - unfold Set_.
    erewrite bind_Ok by exact Hfrom.
    erewrite bind_Ok by (apply load_Some; exact Hv).
    rewrite Hm. erewrite bind_Ok by done.
    by erewrite bind_Ok by (eapply assign_Some; exact Hv).
  - erewrite Get_cached by exact Hc. cbn. by rewrite lookup_insert_eq.
  - destruct (encode codec (sc s) (name s) v') as [encoded|err].
    + destruct Hck as [Hck Hbad].
      destruct (isCookieNameValid (name s)) eqn:Hname.
      * rewrite cookie_lines_valid in Hck by done. revert Hck.
        unfold cookies_of. cbn. by rewrite Hhd, Hnow.
      * rewrite Hbad by done. cbn. exact Hhd.
    + rewrite Hck. cbn. exact Hhd.
Qed.

Lemma flash_all_then_Flashes s w r pairs : ∀ st data st1 v F,
  fromReq codec s r st = Ok data st1 →
  sessions st1 !! data = Some v →
  Flashes v = Some F →
  is_Some (headers st !! Header w) →
  ∃ st',
    (flash_all codec s w r pairs;;
     first ← Flashes_ codec s w r;
     second ← Flashes_ codec s w r;
     mret (first, second)) st = Ok (flashed F pairs, ∅) st'.
Proof.
  induction pairs as [|[key value] rest IH]; intros st data st1 v F Hfrom Hv HF Hh.
  - destruct (Flashes_Ok s w r st data st1 v) as (st2 & H1 & Hc & Hh2); [done..|].
    destruct (Flashes_Ok s w r st2 data st2 {| Data := Data v; Flashes := Some ∅ |})
      as (st3 & H2 & _); [by eapply cached_fromReq|by eapply cached_record|done|].
    exists st3. cbn [flash_all]. unfold mbind, M_bind. cbn.
    rewrite H1, H2. cbn. by rewrite HF, map_range_copy_Some.
  - destruct (Flash_Ok s w r key value st data st1 v F) as (st2 & H1 & Hc & Hh2); [done..|].
    destruct (IH st2 data st2 {| Data := Data v; Flashes := Some (<[key:=value]> F) |}
                (<[key:=value]> F)) as (st' & H');
      [by eapply cached_fromReq|by eapply cached_record|done..|].
    exists st'. cbn [flash_all flashed foldl]. revert H'.
    unfold mbind, M_bind. by rewrite H1.
Qed.

Lemma flashed_snoc F pairs key value :
  flashed F (pairs ++ [(key, value)]) = <[key:=value]> (flashed F pairs).
Proof. unfold flashed. by rewrite foldl_app. Qed.

Lemma flashed_exact F pairs :
  NoDup pairs.*1 →
  ∀ key value,
    flashed F pairs !! key = Some value ↔
    (key, value) ∈ pairs ∨ ((key ∉ pairs.*1) ∧ F !! key = Some value).
Proof.
  induction pairs as [|[k' v'] pairs IH] using rev_ind; intros Hnd key value.
  - cbn. split; [intros ?; right; split; [by intros ?%elem_of_nil|done]|].
    by intros [?%elem_of_nil|[_ ?]].
  - rewrite fmap_app in Hnd. apply NoDup_app in Hnd as (Hnd & Hfresh & _).
    rewrite flashed_snoc, fmap_app, elem_of_app, list_elem_of_singleton. cbn.
    destruct (decide (k' = key)) as [->|Hne].
    + rewrite lookup_insert_eq. split.
      * intros [= ->]. left. by right.
      * intros [[Hin|[= ->]]|[Hout _]]; [|done|].
        -- exfalso. apply (Hfresh key); [|cbn; apply list_elem_of_here].
           apply list_elem_of_fmap. by exists (key, value).
        -- exfalso. apply Hout, elem_of_app. right. apply list_elem_of_here.
    + rewrite lookup_insert_ne by done. rewrite IH by done. split.
      * intros [Hin|[Hout HF]]; [by left; left|right]. split; [|done].
        rewrite elem_of_app, list_elem_of_singleton. by intros [?|?].
      * intros [[Hin|[= ? ?]]|[Hout HF]]; [by left|congruence|right].
        split; [|done]. intros Hin. apply Hout, elem_of_app. by left.
Qed.

(** C2, as amended.  Flash then Flashes: on a request whose record has an
    initialised flash map, after the pairs have been stored with [Flash],
    one after the other, the first [Flashes] returns the flash map of the
    record with those pairs put in it, and a second [Flashes] right after
    it returns the empty mapping.  When no key is flashed twice, that
    mapping holds a pair exactly when it is one of the pairs flashed or a
    flash that was pending on the record under a key not flashed again;
    so it is exactly the pairs flashed when no flash was pending. *)
Theorem Flash_then_Flashes s w r pairs st data st1 v F :
  fromReq codec s r st = Ok data st1 →
  sessions st1 !! data = Some v →
  Flashes v = Some F →
  is_Some (headers st !! Header w) →
  (∃ st',
     (flash_all codec s w r pairs;;
      first ← Flashes_ codec s w r;
      second ← Flashes_ codec s w r;
      mret (first, second)) st = Ok (flashed F pairs, ∅) st') ∧
  (NoDup pairs.*1 → ∀ key value,
     flashed F pairs !! key = Some value ↔
     (key, value) ∈ pairs ∨ ((key ∉ pairs.*1) ∧ F !! key = Some value)) ∧
  (F = ∅ → NoDup pairs.*1 → ∀ key value,
     flashed F pairs !! key = Some value ↔ (key, value) ∈ pairs).
Proof.
  intros Hfrom Hv HF Hh. split_and!.
  - by eapply flash_all_then_Flashes.
  - apply flashed_exact.
  - intros -> Hnd key value. rewrite flashed_exact by done.
    split; [|by left]. intros [?|[_ ?]]; [done|]. by rewrite lookup_empty in *.
Qed.


(** *** The slow path of [fromReq] *)

(** On a request whose context carries no record, [fromReq] makes a new
    one, asks the codec when there is a cookie, and changes neither the
    request nor its context. *)
Lemma fromReq_uncached s r req st :
  requests st !! r = Some req →
  ctxValue (reqContext req) = None →
  ∃ st1,
    fromReq codec s r st = Ok (length (sessions st)) st1 ∧
    sessions st1 = sessions st ++ [request_record codec s req] ∧
    calls st1 = calls st ++ request_decodes s req ∧
    same_outside st st1.
Proof.
  intros Hr Hc.
  cut (wp (fromReq codec s r)
         (λ ss st1, ss = length (sessions st) ∧
            sessions st1 = sessions st ++ [request_record codec s req] ∧
            calls st1 = calls st ++ request_decodes s req ∧
            same_outside st st1) st).
  { intros (ss & st1 & ? & -> & ?)%wp_Ok. eauto. }
  assert (Hnew : ∀ v : session, (sessions st ++ [v]) !! length (sessions st) = Some v).
  { intros v. by apply list_lookup_middle. }
  assert (Hput : ∀ v v' : session,
             <[length (sessions st) := v']> (sessions st ++ [v]) = sessions st ++ [v']).
  { intros v v'. by rewrite insert_app_r_alt, Nat.sub_diag by lia. }
  unfold fromReq, request_record, request_decodes, decoded_record.
  apply wp_bind. eapply wp_load; [exact Hr|]. rewrite Hc.
  destruct (Request_Cookie _ _) as [value|].
  - apply wp_bind, wp_alloc. cbn.
    apply wp_bind. unfold sc_Decode.
    apply wp_bind, wp_modify.
    apply wp_bind. eapply wp_load; [cbn; apply Hnew|].
    destruct (decode _ _ _ _ _) as [v' [e|]].
    + apply wp_bind, wp_assign; [cbn; by rewrite Hnew|]. apply wp_ret.
      apply wp_bind, wp_log_unless_quiet.
      apply wp_bind. eapply wp_session_init.
      { destruct (quiet s); cbn; rewrite Hput; apply Hnew. }
      apply wp_ret. destruct (quiet s); cbn; by rewrite !Hput.
    + apply wp_bind, wp_assign; [cbn; by rewrite Hnew|]. apply wp_ret, wp_ret.
      cbn. by rewrite Hput.
  - apply wp_bind, wp_alloc. cbn.
    apply wp_bind. eapply wp_session_init; [cbn; apply Hnew|].
    apply wp_ret. cbn. by rewrite Hput, app_nil_r.
Qed.


(** *** Reading without caching *)

Lemma Get_uncached s r key req st :
  requests st !! r = Some req →
  ctxValue (reqContext req) = None →
  ∃ st1,
    Get codec s r key st = Ok (map_index (Data (request_record codec s req)) key) st1 ∧
    requests st1 = requests st ∧
    calls st1 = calls st ++ request_decodes s req.
Proof.
  intros Hr Hc.
  destruct (fromReq_uncached s r req st Hr Hc) as (st1 & Hfrom & Hs & Hcalls & Hreq & _).
  exists st1. split_and!; [|done..].
  unfold Get.
  erewrite bind_Ok by exact Hfrom.
  erewrite bind_Ok; [done|].
  apply load_Some. cbn. rewrite Hs. by apply list_lookup_middle.
Qed.

Lemma List_uncached s r req st :
  requests st !! r = Some req →
  ctxValue (reqContext req) = None →
  ∃ st1,
    List codec s r st = Ok (Data (request_record codec s req)) st1 ∧
    requests st1 = requests st ∧
    calls st1 = calls st ++ request_decodes s req.
Proof.
  intros Hr Hc.
  destruct (fromReq_uncached s r req st Hr Hc) as (st1 & Hfrom & Hs & Hcalls & Hreq & _).
  exists st1. split_and!; [|done..].
  unfold List.
  erewrite bind_Ok by exact Hfrom.
  erewrite bind_Ok; [done|].
  apply load_Some. cbn. rewrite Hs. by apply list_lookup_middle.
Qed.


(** C10.  On a request whose context carries no record, [Get] and [List]
    return without changing any request object, so the record they read
    is not attached; called one after the other, each asks the codec to
    decode the cookie again.  The commit step [saveCtx] is what attaches
    a record, after which [Get] reads it without any call to the codec. *)
Theorem read_only_accessors_do_not_cache s r key req st :
  requests st !! r = Some req →
  ctxValue (reqContext req) = None →
  (∃ value st1, Get codec s r key st = Ok value st1 ∧ requests st1 = requests st) ∧
  (∃ data st1, List codec s r st = Ok data st1 ∧ requests st1 = requests st) ∧
  (∃ first second st2,
     (first ← Get codec s r key; second ← List codec s r; mret (first, second)) st
     = Ok (first, second) st2 ∧
     requests st2 = requests st ∧
     calls st2 = calls st ++ request_decodes s req ++ request_decodes s req) ∧
  (∀ w ss v h,
     sessions st !! ss = Some v → headers st !! Header w = Some h →
     ∃ st1, saveCtx codec s w r ss st = Ok tt st1 ∧ cached st1 r ss v ∧
            Get codec s r key st1 = Ok (map_index (Data v) key) st1).
Proof.
  intros Hr Hc. split_and!.
  - destruct (Get_uncached s r key req st Hr Hc) as (st1 & ? & ? & _). eauto.
  - destruct (List_uncached s r req st Hr Hc) as (st1 & ? & ? & _). eauto.
  - destruct (Get_uncached s r key req st Hr Hc) as (st1 & H1 & Hreq1 & Hcalls1).
    destruct (List_uncached s r req st1) as (st2 & H2 & Hreq2 & Hcalls2);
      [by rewrite Hreq1|done|].
    eexists _, _, st2. split_and!.
    + erewrite bind_Ok by exact H1. by erewrite bind_Ok by exact H2.
    + congruence.
    + by rewrite Hcalls2, Hcalls1, <-(assoc_L (++)).
  - intros w ss v h Hs Hh.
    destruct (saveCtx_Ok s w r ss st req v h Hr Hs Hh) as (st1 & Hsave & Hcached & _).
    exists st1. split_and!; [done..|]. by eapply Get_cached.
Qed.


(** *** The manager's configuration *)

Lemma foldl_last_option (o : Options) (opts : list Options) :
  foldl (λ _ opt, opt) o opts = default o (last opts).
Proof.
  revert o. induction opts as [|o' opts IH]; intros o; [done|].
  cbn [foldl]. rewrite IH. destruct opts as [|o'' opts']; [done|].
  change (last (o' :: o'' :: opts')) with (last (o'' :: opts')).
  destruct (last (o'' :: opts')) eqn:E; [done|]. by apply last_None in E.
Qed.

Lemma New_maxAge secret opts :
  maxAge (sc (New secret opts))
  = let age := MaxAge (default zero_Options (last opts)) in
    if decide (age = 0%Z) then defaultMaxAge
    else if decide (age = (-1)%Z) then 0%Z else age.
Proof. unfold New. by rewrite foldl_last_option. Qed.

(** C8, as amended.  Of the negative values of [MaxAge] only -1 disables
    expiry: it sets the codec's max-age to 0.  Any other negative value is
    handed to the codec as it is, and expiry stays enforced. *)
Theorem New_minus_one_disables_expiry secret opts o :
  last opts = Some o →
  (MaxAge o = (-1)%Z → expiry_disabled (sc (New secret opts))) ∧
  ((MaxAge o < -1)%Z → maxAge (sc (New secret opts)) = MaxAge o ∧
                        ¬ expiry_disabled (sc (New secret opts))).
Proof.
  intros Hlast. unfold expiry_disabled. rewrite New_maxAge, Hlast. cbn. split.
  - intros ->. done.
  - intros Hlt. rewrite !decide_False by lia. split; [done|lia].
Qed.

(** *** The middleware after the handler has returned *)

(** When the codec fails to encode the record, [templ_leave] logs and
    returns: nothing reaches the underlying writer, and the buffer keeps
    the body and stays out of the pool. *)
Lemma templ_leave_encode_failure s pool session b wrapper st v err :
  sessions st !! session = Some v →
  encode codec (sc s) (name s) v = Failure err →
  templ_leave codec s pool session b wrapper st
  = Ok tt (let st1 := over callsS (λ l, l ++ [CallEncode (name s) v]) st in
           if quiet s then st1
           else over stdoutS (λ l, l ++ [encode_failed err]) st1).
Proof.
  intros Hs He. unfold templ_leave, sc_Encode.
  erewrite bind_Ok; [|by erewrite bind_Ok by (apply load_Some; exact Hs)].
  rewrite He. unfold log_unless_quiet. by destruct (quiet s).
Qed.

Lemma string_app_nil_r (s : string) : s +:+ "" = s.
Proof.
  induction s as [|a s IH]; [done|].
  change (String a (s +:+ "") = String a s). by rewrite IH.
Qed.

Lemma body_written_nil rec : body_written rec "" = rec.
Proof. destruct rec. unfold body_written. cbn. by rewrite string_app_nil_r. Qed.

Lemma header_written_code rec code hd : is_Some (recCode (header_written rec code hd)).
Proof. unfold header_written. destruct (recCode rec) eqn:E; [by rewrite E|done]. Qed.

(** The first [WriteHeader] on the host's writer returns when the status
    code is one of 100..999; any later one returns and changes nothing. *)
Lemma wp_recorder_WriteHeader i h code rec hd Q st :
  recorders st !! i = Some rec →
  headers st !! h = Some hd →
  (recCode rec = None → (100 ≤ code ≤ 999)%Z) →
  Q tt (over recordersS (λ l, <[i := header_written rec code hd]> l) st) →
  wp (recorder_WriteHeader i h code) Q st.
Proof.
  intros Hr Hh Hcode HQ. unfold recorder_WriteHeader.
  apply wp_bind. eapply wp_load; [exact Hr|].
  unfold header_written in HQ. destruct (recCode rec) as [c|].
  - apply wp_ret. by rewrite over_recorders_id in HQ.
  - apply wp_bind. unfold checkWriteHeaderCode.
    rewrite decide_False by (specialize (Hcode eq_refl); lia). apply wp_ret.
    apply wp_bind. eapply wp_load; [exact Hh|].
    by apply wp_assign; [cbn; rewrite Hr|].
Qed.

(** A status code outside 100..999 makes the first [WriteHeader] panic. *)
Lemma recorder_WriteHeader_invalid i h code rec st :
  recorders st !! i = Some rec →
  recCode rec = None →
  (code < 100 ∨ code > 999)%Z →
  recorder_WriteHeader i h code st = Panic ("invalid WriteHeader code " +:+ pretty code).
Proof.
  intros Hr Hnone Hcode. unfold recorder_WriteHeader.
  erewrite bind_Ok by (apply load_Some; exact Hr).
  rewrite Hnone. unfold checkWriteHeaderCode. by rewrite decide_True.
Qed.

(** Once the header is written, [Write] only adds to the body. *)
Lemma wp_recorder_Write i h data rec Q st :
  recorders st !! i = Some rec →
  is_Some (recCode rec) →
  Q (Z.of_nat (String.length data), None)
    (over recordersS (λ l, <[i := body_written rec data]> l) st) →
  wp (recorder_Write i h data) Q st.
Proof.
  intros Hr [c Hc] HQ. unfold recorder_Write.
  apply wp_bind. unfold recorder_writeHeader.
  apply wp_bind. eapply wp_load; [exact Hr|]. rewrite Hc. apply wp_ret.
  apply wp_bind. eapply wp_load; [exact Hr|].
  apply wp_bind, wp_assign; [cbn; by rewrite Hr|]. by apply wp_ret.
Qed.

(** When the codec encodes the record: the cookie goes to the header map
    of the underlying writer, then the wrapper is flushed to that writer
    (which checks the status held by the wrapper if its header was not
    written before), and the buffer is put back. *)
Lemma templ_leave_flush s pool session b cell i h st v encoded hd c0 buf rec items :
  sessions st !! session = Some v →
  encode codec (sc s) (name s) v = Success encoded →
  headers st !! h = Some hd →
  wrappers st !! cell = Some c0 →
  buffers st !! rw_b c0 = Some buf →
  recorders st !! i = Some rec →
  pools st !! pool = Some items →
  (recCode rec = None → (100 ≤ rw_c c0 ≤ 999)%Z) →
  ∃ st',
    templ_leave codec s pool session b {| rw_cell := cell; rw_w := recorder_writer i h |} st
    = Ok tt st' ∧
    flushed s pool b i h v encoded hd c0 buf rec items st st'.
Proof.
  intros Hs He Hh Hc Hb Hr Hp Hcode.
  set (w := recorder_writer i h).
  cut (wp (templ_leave codec s pool session b {| rw_cell := cell; rw_w := w |})
         (λ _, flushed s pool b i h v encoded hd c0 buf rec items st) st).
  { intros ([] & st' & ? & ?)%wp_Ok. eauto. }
  set (hd' := with_cookie hd (session_cookie s encoded (now st))).
  assert (Hpool : ∀ Q st0, pools st0 !! pool = Some items →
            Q tt (over poolsS (λ l, <[pool := b :: items]> l) st0) →
            wp (Pool_Put pool b) Q st0).
  { intros Q st0 Hp0 HQ. unfold Pool_Put.
    apply wp_bind. eapply wp_load; [exact Hp0|].
    by apply wp_assign; [cbn; rewrite Hp0|]. }
  unfold templ_leave, sc_Encode.
  apply wp_bind, wp_bind. eapply wp_load; [exact Hs|].
  apply wp_bind, wp_modify, wp_ret. rewrite He.
  apply wp_bind, wp_gets.
  apply wp_bind. eapply wp_SetCookie; [exact Hh|]. cbn [now over callsS]. fold hd'.
  apply wp_bind. unfold responseWrapper_Flush.
  apply wp_bind. eapply wp_load; [exact Hc|].
  apply wp_bind. cbn [WriteHeader rw_w w recorder_writer].
  eapply (wp_recorder_WriteHeader i h (rw_c c0) rec hd'); [exact Hr| |exact Hcode|].
  { cbn. apply list_lookup_insert_eq. by eapply lookup_lt_Some. }
  unfold Buffer_WriteTo.
  apply wp_bind. eapply wp_load; [exact Hb|].
  destruct (decide (buf = "")) as [->|Hne].
  - apply wp_bind, wp_assign; [cbn; by rewrite Hb|]. apply wp_ret.
    apply wp_bind, wp_ret. apply Hpool; [done|].
    unfold flushed. cbn. fold hd'. split_and!; try done.
    by rewrite body_written_nil.
  - apply wp_bind. cbn [Write rw_w w recorder_writer].
    eapply wp_recorder_Write.
    { cbn. apply list_lookup_insert_eq. by eapply lookup_lt_Some. }
    { apply header_written_code. }
    apply wp_bind, wp_assign; [cbn; by rewrite Hb|].
    rewrite decide_True by done.
    apply wp_bind, wp_assign.
    { cbn. apply lookup_lt_is_Some. rewrite length_insert. by eapply lookup_lt_Some. }
    apply wp_ret.
    apply wp_bind, wp_ret. apply Hpool; [done|].
    unfold flushed. cbn. fold hd'. split_and!; try done.
    + by rewrite list_insert_insert_eq.
    + by rewrite list_insert_insert_eq.
Qed.

Lemma cookies_of_with_cookie w hd c st st' :
  headers st !! Header w = Some hd →
  headers st' = <[Header w := with_cookie hd c]> (headers st) →
  cookies_of st' w = cookies_of st w ++ cookie_lines c.
Proof. intros Hh Hh'. unfold cookies_of at 1. by eapply cookies_of_SetCookie. Qed.

(** C5.  Whatever was configured at construction, the cookie issued on a
    commit carries [Max-Age] 31536000 (one year) and an [Expires] one year
    from now: both the cookie [saveCtx] sets and the one the middleware
    sets after the wrapped handler has returned, the status the handler
    left in the wrapper being one the host's writer takes.  (No cookie is
    issued by either when the configured name is not a valid cookie
    name.) *)
Theorem commit_cookie_lifetime_is_fixed secret opts ss st v encoded :
  let s := New secret opts in
  let issued :=
    {| cName := name s; cMaxAge := 31536000; cExpires := now st + 31536000;
       cValue := encoded; cPath := "/"; cHttpOnly := true; cSecure := true |} in
  let lines := if isCookieNameValid (name s) then [HCookie issued] else [] in
  sessions st !! ss = Some v →
  encode codec (sc s) (name s) v = Success encoded →
  (∀ w r req hd,
     requests st !! r = Some req →
     headers st !! Header w = Some hd →
     ∃ st', saveCtx codec s w r ss st = Ok tt st' ∧
            cookies_of st' w = cookies_of st w ++ lines) ∧
  (∀ pool b cell i h hd c0 buf rec items,
     headers st !! h = Some hd →
     wrappers st !! cell = Some c0 →
     buffers st !! rw_b c0 = Some buf →
     recorders st !! i = Some rec →
     pools st !! pool = Some items →
     (recCode rec = None → (100 ≤ rw_c c0 ≤ 999)%Z) →
     let w := recorder_writer i h in
     ∃ st', templ_leave codec s pool ss b {| rw_cell := cell; rw_w := w |} st = Ok tt st' ∧
            cookies_of st' w = cookies_of st w ++ lines).
Proof.
  intros s issued lines Hs He.
  assert (Hlines : cookie_lines (session_cookie s encoded (now st)) = lines).
  { unfold cookie_lines, Cookie_String, lines. cbn [session_cookie cName].
    by destruct (isCookieNameValid (name s)). }
  split.
  - intros w r req hd Hr Hh.
    destruct (saveCtx_Ok s w r ss st req v hd Hr Hs Hh) as (st' & Hsave & _ & _ & _ & _ & _ & Hck).
    exists st'. split; [done|]. rewrite He in Hck. destruct Hck as [Hck _].
    by rewrite Hck, Hlines.
  - intros pool b cell i h hd c0 buf rec items Hh Hc Hb Hr Hp Hcode w.
    destruct (templ_leave_flush s pool ss b cell i h st v encoded hd c0 buf rec items)
      as (st' & Hleave & Hhd' & _); [done..|].
    exists st'. split; [done|]. rewrite <-Hlines.
    by eapply (cookies_of_with_cookie w).
Qed.



(** With the whole handler in view: once the wrapped handler has returned
    and the codec refuses the record, the request ends in the world the
    handler left, plus the codec call and the log line. *)
Lemma TemplMiddleware_encode_failure s next pool w r st session b wrapper r' st1 st2 v err :
  templ_enter codec s pool w r st = Ok (session, b, wrapper, r') st1 →
  next (wrapper_writer wrapper) r' st1 = Ok tt st2 →
  sessions st2 !! session = Some v →
  encode codec (sc s) (name s) v = Failure err →
  TemplMiddleware_ServeHTTP codec s next pool w r st
  = Ok tt (let st3 := over callsS (λ l, l ++ [CallEncode (name s) v]) st2 in
           if quiet s then st3
           else over stdoutS (λ l, l ++ [encode_failed err]) st3).
Proof.
  intros Henter Hnext Hs He. unfold TemplMiddleware_ServeHTTP.
  erewrite bind_Ok by exact Henter. cbn.
  erewrite bind_Ok by exact Hnext.
  by apply templ_leave_encode_failure.
Qed.

(** *** What [fromReq] guarantees of the maps *)

Lemma init_fields_initialised v :
  is_Some (Data (init_fields v)) ∧ is_Some (Flashes (init_fields v)).
Proof. unfold init_fields. destruct (Data v), (Flashes v); cbn; eauto. Qed.

(** Without a cookie, or when the codec reports an error, both maps of the
    new record are initialised; after a decode without error the record
    is the codec's. *)
Lemma request_record_cases s req :
  match Request_Cookie (reqCookies req) (name s) with
  | None => request_record codec s req = {| Data := Some ∅; Flashes := Some ∅ |}
  | Some value =>
    match decode codec (sc s) (name s) value zero_session with
    | (v, Some _) => request_record codec s req = init_fields v
    | (v, None) => request_record codec s req = v
    end
  end.
Proof.
  unfold request_record, decoded_record.
  destruct (Request_Cookie _ _) as [value|]; [|done].
  by destruct (decode _ _ _ _ _) as [v [e|]].
Qed.

(** C9.  The middleware with excluded paths: it is made from a handler and
    a list of paths; a request to an excluded path reaches the handler as
    it came, with no record decoded or attached, and a handler that reads
    the flashes through the context is given the empty mapping (with a
    warning printed unless quiet).  With no path excluded it serves as
    [TemplMiddleware] does. *)
Theorem excluded_path_sees_empty_flash_view s render exclude w r req st :
  requests st !! r = Some req →
  reqPath req ∈ exclude →
  ctxValue (reqContext req) = None →
  (∃ serve st1,
     TemplMiddlewareExcluding codec s (flash_view_handler s render) exclude st
     = Ok serve st1 ∧
     sessions st1 = sessions st ∧ requests st1 = requests st ∧ calls st1 = calls st ∧
     serve w r st1
     = render ∅ w (if quiet s then st1
                   else over stdoutS (λ l, l ++ [flashes_ctx_warning]) st1)) ∧
  (∀ next, ∃ serve st1,
     TemplMiddlewareExcluding codec s next [] st = Ok serve st1 ∧
     serve w r st1 = TemplMiddleware_ServeHTTP codec s next (length (pools st)) w r st1).
Proof.
  intros Hr Hex Hc. split.
  - eexists _, _. split; [reflexivity|]. cbn. split_and!; [done..|].
    erewrite bind_Ok by (apply load_Some; exact Hr).
    rewrite decide_True by done. unfold flash_view_handler.
    erewrite bind_Ok by (apply load_Some; exact Hr).
    unfold FlashesCtx. rewrite Hc. unfold log_unless_quiet.
    by destruct (quiet s).
  - intros next. eexists _, _. split; [reflexivity|]. cbn.
    erewrite bind_Ok by (apply load_Some; exact Hr).
    rewrite decide_False; [done|]. by intros ?%elem_of_nil.
Qed.

End Properties.

(** ** Where the code departs from its specification *)

(** C3, at a failing input.  A handler under [TemplMiddleware] answers 201
    with the body "created" after storing an entry the codec refuses.
    The encode failure is logged, and the request ends there: the status
    and the body stay in the wrapper and its buffer, the host's writer has
    received neither, and the buffer is not put back in the pool. *)
Theorem encode_failure_swallows_response :
  let s := New "secret" [] in
  ∃ serve st1 st',
    TemplMiddleware test_codec s (huge_handler s) (inbound "/" []) = Ok serve st1 ∧
    serve rr 0 st1 = Ok tt st' ∧
    wrappers st' = [ {| rw_b := 0; rw_c := 201 |} ] ∧
    buffers st' = ["created"] ∧
    recorders st' = [ {| recCode := None; snapHeader := None; recBody := "" |} ] ∧
    cookies_of st' rr = [] ∧
    pools st' = [[]] ∧
    last (stdout st') = Some (encode_failed "securecookie: the value is too long").
Proof.
  eexists _, _, _. split; [reflexivity|]. split; [vm_compute; reflexivity|].
  by vm_compute.
Qed.

(** C4, at a failing input.  A manager made with [MaxAge: 3600] hands 3600
    to the codec, and the cookie its commit issues has the configured
    name, path "/", [HttpOnly] and [Secure], but [Max-Age] 31536000. *)
Theorem configured_maxAge_not_on_cookie :
  let s := New "secret" [ {| Name := ""; MaxAge := 3600; Quiet := false |} ] in
  maxAge (sc s) = 3600%Z ∧
  ∃ st',
    Set_ test_codec s rr 0 "name" (IString "Ben") (inbound "/" []) = Ok tt st' ∧
    cookies_of st' rr
    = [HCookie {| cName := "_session"; cMaxAge := 31536000;
                  cExpires := 1700000000 + 31536000; cValue := "sealed";
                  cPath := "/"; cHttpOnly := true; cSecure := true |}].
Proof.
  split; [done|]. eexists. split; [vm_compute; reflexivity|]. by vm_compute.
Qed.

(** C6, at a failing input.  The cookie decodes without error and without
    either map being written; [fromReq] returns the record as decoded,
    both maps nil, and logs nothing.  [Set] and [Flash] on that request
    then panic on the nil map. *)
Theorem decoded_record_keeps_nil_maps :
  let s := New "secret" [] in
  let st := inbound "/" [("_session", "bare")] in
  ∃ st',
    fromReq test_codec s 0 st = Ok 0 st' ∧
    sessions st' = [ {| Data := None; Flashes := None |} ] ∧
    stdout st' = [] ∧
    Set_ test_codec s rr 0 "name" (IString "Ben") st
    = Panic "assignment to entry in nil map" ∧
    Flash test_codec s rr 0 "notice" (IString "hi") st
    = Panic "assignment to entry in nil map".
Proof.
  eexists. split; [vm_compute; reflexivity|]. by vm_compute.
Qed.

(** C1 fails at three inputs.  On a request whose cookie decodes to a
    record with a nil data map, [Set] panics.  With a value the codec
    refuses to encode, and with a manager whose name is not a valid cookie
    name, [Set] returns and [Get] returns the value, but no [Set-Cookie]
    header is on the response. *)
Lemma Set_may_panic_or_leave_no_cookie :
  let value := IString "Ben" in
  Set_ test_codec (New "secret" []) rr 0 "name" value (inbound "/" [("_session", "bare")])
  = Panic "assignment to entry in nil map" ∧
  (∃ st',
     Set_ test_codec (New "secret" []) rr 0 "huge" value (inbound "/" []) = Ok tt st' ∧
     Get test_codec (New "secret" []) 0 "huge" st' = Ok value st' ∧
     cookies_of st' rr = []) ∧
  (let s := New "secret" [ {| Name := "my session"; MaxAge := 0; Quiet := false |} ] in
   ∃ st',
     Set_ test_codec s rr 0 "name" value (inbound "/" []) = Ok tt st' ∧
     Get test_codec s 0 "name" st' = Ok value st' ∧
     cookies_of st' rr = []).
Proof.
  split; [by vm_compute|]. split.
  - eexists. split; [vm_compute; reflexivity|]. by vm_compute.
  - eexists. split; [vm_compute; reflexivity|]. by vm_compute.
Qed.

(** C2 fails on a request whose cookie carries a flash: the first
    [Flashes] after a [Flash] returns the pending flash too, not only
    the pair that was flashed.  (And on a request whose cookie decodes to
    a record with a nil flash map, [Flash] panics.) *)
Lemma Flashes_returns_pending_flashes_too :
  let s := New "secret" [] in
  (∃ first st',
     (Flash test_codec s rr 0 "a" (IString "b");; Flashes_ test_codec s rr 0)
       (inbound "/" [("_session", "notice")]) = Ok first st' ∧
     first !! "a" = Some (IString "b") ∧
     first !! "notice" = Some (IString "hi") ∧
     first ≠ flashed ∅ [("a", IString "b")]) ∧
  Flash test_codec s rr 0 "a" (IString "b") (inbound "/" [("_session", "bare")])
  = Panic "assignment to entry in nil map".
Proof.
  split; [|by vm_compute].
  eexists _, _. split; [vm_compute; reflexivity|].
  split; [by vm_compute|]. split; [by vm_compute|].
  intros H. apply (f_equal (λ m : gmap string iface, m !! "notice")) in H.
  by vm_compute in H.
Qed.

(** C8 fails at -2: a negative [MaxAge] for which expiry is not disabled. *)
Lemma New_negative_two_keeps_expiry :
  let o := {| Name := ""; MaxAge := -2; Quiet := false |} in
  (MaxAge o < 0)%Z ∧ ¬ expiry_disabled (sc (New "secret" [o])).
Proof. split; [done|]. by vm_compute. Qed.

(** ** The theorems at concrete inputs *)

Lemma Set_then_Get_witness :
  let s := New "secret" [] in
  let st := inbound "/" [("_session", "ben")] in
  ∃ st2,
    Set_ test_codec s rr 0 "city" (IString "Oslo") st = Ok tt st2 ∧
    Get test_codec s 0 "city" st2 = Ok (IString "Oslo") st2 ∧
    cookies_of st2 rr = [HCookie (session_cookie s "sealed" 1700000000)].
Proof.
  intros s st.
  edestruct (Set_then_Get test_codec s rr 0 "city" (IString "Oslo") st)
    as (st2 & HSet & HGet & Hcookie).
  - vm_compute. reflexivity.
  - vm_compute. reflexivity.
  - vm_compute. reflexivity.
  - vm_compute. eexists. reflexivity.
  - exists st2. split; [exact HSet|]. split; [exact HGet|]. exact Hcookie.
Defined.

Lemma Flash_then_Flashes_witness :
  let s := New "secret" [] in
  let pairs := [("flash1", IString "value1"); ("flash2", IString "value2")] in
  let pending : gmap string iface := {["notice" := IString "hi"]} in
  (∃ st',
     (flash_all test_codec s rr 0 pairs;;
      first ← Flashes_ test_codec s rr 0;
      second ← Flashes_ test_codec s rr 0;
      mret (first, second)) (inbound "/" []) = Ok (flashed ∅ pairs, ∅) st') ∧
  (∃ st',
     (flash_all test_codec s rr 0 pairs;;
      first ← Flashes_ test_codec s rr 0;
      second ← Flashes_ test_codec s rr 0;
      mret (first, second)) (inbound "/" [("_session", "notice")])
     = Ok (flashed pending pairs, ∅) st').
Proof.
  intros s pairs pending. split.
  - edestruct (Flash_then_Flashes test_codec s rr 0 pairs (inbound "/" [])) as [Hrun _].
    + vm_compute. reflexivity.
    + vm_compute. reflexivity.
    + vm_compute. reflexivity.
    + vm_compute. eexists. reflexivity.
    + exact Hrun.
  - edestruct (Flash_then_Flashes test_codec s rr 0 pairs
                 (inbound "/" [("_session", "notice")])) as [Hrun _].
    + vm_compute. reflexivity.
    + vm_compute. reflexivity.
    + vm_compute. reflexivity.
    + vm_compute. eexists. reflexivity.
    + exact Hrun.
Defined.

Lemma commit_cookie_lifetime_is_fixed_witness :
  let s := New "secret" [ {| Name := ""; MaxAge := 3600; Quiet := false |} ] in
  let issued :=
    {| cName := "_session"; cMaxAge := 31536000; cExpires := 1700000000 + 31536000;
       cValue := "sealed"; cPath := "/"; cHttpOnly := true; cSecure := true |} in
  (∃ st', saveCtx test_codec s rr 0 0 buffered = Ok tt st' ∧
          cookies_of st' rr = [HCookie issued]) ∧
  (∃ st', templ_leave test_codec s 0 0 0 {| rw_cell := 0; rw_w := rr |} buffered = Ok tt st' ∧
          cookies_of st' rr = [HCookie issued]).
Proof.
  intros s issued.
  edestruct (commit_cookie_lifetime_is_fixed test_codec "secret"
               [ {| Name := ""; MaxAge := 3600; Quiet := false |} ] 0 buffered)
    as [Hsave Hleave].
  - vm_compute. reflexivity.
  - vm_compute. reflexivity.
  - split.
    + edestruct (Hsave rr 0) as (st' & H1 & H2);
        [vm_compute; reflexivity..|].
      exists st'. split; [exact H1|exact H2].
    + edestruct (Hleave 0 0 0 0 0) as (st' & H1 & H2);
        [vm_compute; reflexivity..| |].
      * intros _. cbn. lia.
      * exists st'. split; [exact H1|exact H2].
Defined.


Lemma New_minus_one_disables_expiry_witness :
  expiry_disabled (sc (New "secret" [ {| Name := ""; MaxAge := -1; Quiet := false |} ])) ∧
  maxAge (sc (New "secret" [ {| Name := ""; MaxAge := -5; Quiet := true |} ])) = (-5)%Z.
Proof.
  split.
  - destruct (New_minus_one_disables_expiry "secret"
                [ {| Name := ""; MaxAge := -1; Quiet := false |} ] _ eq_refl) as [Hoff _].
    apply Hoff. reflexivity.
  - destruct (New_minus_one_disables_expiry "secret"
                [ {| Name := ""; MaxAge := -5; Quiet := true |} ] _ eq_refl) as [_ Hkept].
    apply Hkept. cbn. lia.
Defined.

Lemma excluded_path_sees_empty_flash_view_witness :
  let s := New "secret" [] in
  let st := inbound "/skip-me" [("_session", "notice")] in
  ∃ serve st1 st2,
    TemplMiddlewareExcluding test_codec s (flash_view_handler s count_flashes)
      ["/skip-me"] st = Ok serve st1 ∧
    serve rr 0 st1 = Ok tt st2 ∧
    recCode <$> recorders st2 = [Some 200%Z] ∧
    recBody <$> recorders st2 = ["no flashes"] ∧
    sessions st2 = [] ∧ calls st2 = [].
Proof.
  intros s st.
  edestruct (excluded_path_sees_empty_flash_view test_codec s count_flashes
               ["/skip-me"] rr 0
               {| reqContext := {| ctxValue := None |};
                  reqCookies := [("_session", "notice")]; reqPath := "/skip-me" |} st) as [(serve & st1 & Hmw & _ & _ & _ & Hserve) _].
  - vm_compute. reflexivity.
  - cbn. apply list_elem_of_here.
  - reflexivity.
  - exists serve, st1. eexists. split; [exact Hmw|]. rewrite Hserve.
    injection Hmw as _ <-. split; [vm_compute; reflexivity|]. by vm_compute.
Defined.

Lemma read_only_accessors_do_not_cache_witness :
  let s := New "secret" [] in
  let st := inbound "/" [("_session", "ben")] in
  ∃ first second st2,
    (first ← Get test_codec s 0 "name"; second ← List test_codec s 0; mret (first, second)) st
    = Ok (first, second) st2 ∧
    requests st2 = requests st ∧
    calls st2 = [CallDecode "_session" "ben"; CallDecode "_session" "ben"].
Proof.
  intros s st.
  edestruct (read_only_accessors_do_not_cache test_codec s 0 "name"
               {| reqContext := {| ctxValue := None |};
                  reqCookies := [("_session", "ben")]; reqPath := "/" |} st)
    as (_ & _ & (first & second & st2 & Hrun & Hreq & Hcalls) & _).
  - vm_compute. reflexivity.
  - reflexivity.
  - exists first, second, st2. split; [exact Hrun|]. split; [exact Hreq|].
    rewrite Hcalls. reflexivity.
Defined.

(** ** Further properties of the package *)

Global Instance same_response_preorder : PreOrder same_response.
Proof.
  split.
  - by intros st.
  - intros st1 st2 st3 (? & ? & ? & ? & ?) (? & ? & ? & ? & ?).
    repeat split; congruence.
Qed.

Global Instance same_stdout_preorder : PreOrder same_stdout.
Proof. split; [by intros st|]. unfold same_stdout. intros st1 st2 st3 ??. congruence. Qed.

Global Instance header_extends_preorder : PreOrder header_extends.
Proof.
  split.
  - by intros hd.
  - intros h1 h2 h3 [H12 P12] [H23 P23]. split.
    + intros key Hk. by rewrite H23, H12.
    + by etrans.
Qed.

Global Instance header_maps_extend_preorder : PreOrder header_maps_extend.
Proof.
  split.
  - intros hs i hd Hi. by exists hd.
  - intros hs1 hs2 hs3 H12 H23 i hd Hi.
    destruct (H12 i hd Hi) as (hd2 & Hi2 & He2).
    destruct (H23 i hd2 Hi2) as (hd3 & Hi3 & He3).
    exists hd3. split; [done|by etrans].
Qed.

Global Instance headers_extend_preorder : PreOrder headers_extend.
Proof.
  unfold headers_extend. split.
  - by intros st.
  - intros st1 st2 st3 ??. by etrans.
Qed.

(** The frame tactic again, for relations on one field of the world: a
    step on another store leaves the field as it is. *)
Ltac field_unchanged :=
  intros; unfold headers_extend, same_stdout; cbn; reflexivity.

Ltac keeps_field :=
  lazymatch goal with
  | |- keeps _ (mret _) => apply keeps_ret; apply _
  | |- keeps _ (_ ≫= _) =>
      apply keeps_bind; [apply _ | keeps_field | intros ?; keeps_field]
  | |- keeps _ (load _ _) => apply keeps_load; apply _
  | |- keeps _ (gets _) => apply keeps_gets; apply _
  | |- keeps _ (panic _) => apply keeps_panic
  | |- keeps _ (modify _) => apply keeps_modify; field_unchanged
  | |- keeps _ (Printf _) => apply keeps_modify; field_unchanged
  | |- keeps _ (alloc _ _) => apply keeps_alloc; field_unchanged
  | |- keeps _ (assign _ _ _) => apply keeps_assign; field_unchanged
  | |- keeps _ (match ?x with _ => _ end) => destruct x; keeps_field
  | |- _ => eauto with keeps
  end.

Lemma keeps_map_assign R `{!PreOrder R} m key value : keeps R (map_assign m key value).
Proof. destruct m; [by apply keeps_ret|apply keeps_panic]. Qed.

Section MoreProperties.

Variable codec : Codec.

(** *** What the accessors never touch *)

Lemma response_log_unless_quiet s line : keeps same_response (log_unless_quiet s line).
Proof. unfold log_unless_quiet. keeps_auto. Qed.

Lemma response_session_init ss : keeps same_response (session_init ss).
Proof. unfold session_init. keeps_auto. Qed.

Lemma response_sc_Decode s value dst : keeps same_response (sc_Decode codec s value dst).
Proof. unfold sc_Decode. keeps_auto. Qed.

Lemma response_sc_Encode s src : keeps same_response (sc_Encode codec s src).
Proof. unfold sc_Encode. keeps_auto. Qed.

Lemma response_SetCookie w cookie : keeps same_response (SetCookie w cookie).
Proof. unfold SetCookie. keeps_auto. Qed.

Lemma response_map_assign m key value : keeps same_response (map_assign m key value).
Proof. apply keeps_map_assign, _. Qed.

Local Hint Resolve response_log_unless_quiet response_session_init response_sc_Decode
  response_sc_Encode response_SetCookie response_map_assign : keeps.

Lemma response_fromReq s r : keeps same_response (fromReq codec s r).
Proof. unfold fromReq. keeps_auto. Qed.

Lemma response_saveCtx s w r ss : keeps same_response (saveCtx codec s w r ss).
Proof. unfold saveCtx. keeps_auto. Qed.

Local Hint Resolve response_fromReq response_saveCtx : keeps.

Lemma response_Flash s w r key value : keeps same_response (Flash codec s w r key value).
Proof. unfold Flash. keeps_auto. Qed.

Lemma response_Reset s w r : keeps same_response (Reset codec s w r).
Proof. unfold Reset. keeps_auto. Qed.


Lemma response_Get s r key : keeps same_response (Get codec s r key).
Proof. unfold Get. keeps_auto. Qed.

Lemma response_List s r : keeps same_response (List codec s r).
Proof. unfold List. keeps_auto. Qed.

Lemma response_Set s w r key value : keeps same_response (Set_ codec s w r key value).
Proof. unfold Set_. keeps_auto. Qed.

Lemma response_Delete s w r key : keeps same_response (Delete codec s w r key).
Proof. unfold Delete. keeps_auto. Qed.

Lemma response_Flashes s w r : keeps same_response (Flashes_ codec s w r).
Proof. unfold Flashes_. keeps_auto. Qed.

Lemma response_FlashesCtx s ctx : keeps same_response (FlashesCtx s ctx).
Proof. unfold FlashesCtx. keeps_auto. Qed.

(** X1.  No accessor writes a status or a body: whatever writer it is
    given, each of [Get], [List], [Set], [Delete], [Reset], [Flash],
    [Flashes] and [FlashesCtx] leaves what the host's writers have
    received, every buffer, every wrapper and every pool as they were. *)
Theorem accessors_leave_the_response_body_alone s w r key value ctx :
  keeps same_response (Get codec s r key) ∧
  keeps same_response (List codec s r) ∧
  keeps same_response (Set_ codec s w r key value) ∧
  keeps same_response (Delete codec s w r key) ∧
  keeps same_response (Reset codec s w r) ∧
  keeps same_response (Flash codec s w r key value) ∧
  keeps same_response (Flashes_ codec s w r) ∧
  keeps same_response (FlashesCtx s ctx).
Proof.
  split_and!; eauto using response_Get, response_List, response_Set, response_Delete,
    response_Reset, response_Flash, response_Flashes, response_FlashesCtx.
Qed.

(** *** Headers are only added to *)

Lemma headers_SetCookie w cookie : keeps headers_extend (SetCookie w cookie).
Proof.
  intros st [] st' H. unfold SetCookie in H.
  destruct (Cookie_String cookie) as [line|]; [|injection H as <-; reflexivity].
  apply bind_Ok_inv in H as (h & ? & [Hh ->]%load_Ok_inv & H).
  unfold assign in H. cbn in Hh, H. rewrite Hh in H. injection H as <-.
  unfold headers_extend. cbn. intros i hd Hi.
  destruct (decide (i = Header w)) as [->|Hne].
  - exists (Header_Add h "Set-Cookie" line). split.
    + apply list_lookup_insert_eq. by eapply lookup_lt_Some.
    + rewrite Hh in Hi. injection Hi as <-. unfold Header_Add. split.
      * intros key Hk. by rewrite lookup_insert_ne.
      * rewrite lookup_insert_eq. cbn. by apply prefix_app_r.
  - exists hd. split; [by rewrite list_lookup_insert_ne|reflexivity].
Qed.

Lemma headers_log_unless_quiet s line : keeps headers_extend (log_unless_quiet s line).
Proof. unfold log_unless_quiet. keeps_field. Qed.

Lemma headers_session_init ss : keeps headers_extend (session_init ss).
Proof. unfold session_init. keeps_field. Qed.

Lemma headers_sc_Decode s value dst : keeps headers_extend (sc_Decode codec s value dst).
Proof. unfold sc_Decode. keeps_field. Qed.

Lemma headers_sc_Encode s src : keeps headers_extend (sc_Encode codec s src).
Proof. unfold sc_Encode. keeps_field. Qed.

Lemma headers_map_assign m key value : keeps headers_extend (map_assign m key value).
Proof. apply keeps_map_assign, _. Qed.

Local Hint Resolve headers_SetCookie headers_log_unless_quiet headers_session_init
  headers_sc_Decode headers_sc_Encode headers_map_assign : keeps.

Lemma headers_fromReq s r : keeps headers_extend (fromReq codec s r).
Proof. unfold fromReq. keeps_field. Qed.

Lemma headers_saveCtx s w r ss : keeps headers_extend (saveCtx codec s w r ss).
Proof. unfold saveCtx. keeps_field. Qed.

Local Hint Resolve headers_fromReq headers_saveCtx : keeps.

(** X2.  The accessors only ever add [Set-Cookie] lines: every header map
    keeps its other headers as they were, and the [Set-Cookie] lines
    already set on it, by the handler or by other middleware, stay in
    front of the ones the accessors add. *)
Theorem accessors_only_add_cookie_lines s w r key value ctx :
  keeps headers_extend (Get codec s r key) ∧
  keeps headers_extend (List codec s r) ∧
  keeps headers_extend (Set_ codec s w r key value) ∧
  keeps headers_extend (Delete codec s w r key) ∧
  keeps headers_extend (Reset codec s w r) ∧
  keeps headers_extend (Flash codec s w r key value) ∧
  keeps headers_extend (Flashes_ codec s w r) ∧
  keeps headers_extend (FlashesCtx s ctx).
Proof.
  split_and!.
  - unfold Get. keeps_field.
  - unfold List. keeps_field.
  - unfold Set_. keeps_field.
  - unfold Delete. keeps_field.
  - unfold Reset. keeps_field.
  - unfold Flash. keeps_field.
  - unfold Flashes_. keeps_field.
  - unfold FlashesCtx. keeps_field.
Qed.

(** *** A quiet manager *)

Lemma stdout_log_unless_quiet s line :
  quiet s = true → keeps same_stdout (log_unless_quiet s line).
Proof. intros Hq. unfold log_unless_quiet. rewrite Hq. apply keeps_ret, _. Qed.

Lemma stdout_session_init ss : keeps same_stdout (session_init ss).
Proof. unfold session_init. keeps_field. Qed.

Lemma stdout_sc_Decode s value dst : keeps same_stdout (sc_Decode codec s value dst).
Proof. unfold sc_Decode. keeps_field. Qed.

Lemma stdout_sc_Encode s src : keeps same_stdout (sc_Encode codec s src).
Proof. unfold sc_Encode. keeps_field. Qed.

Lemma stdout_SetCookie w cookie : keeps same_stdout (SetCookie w cookie).
Proof. unfold SetCookie. keeps_field. Qed.

Lemma stdout_map_assign m key value : keeps same_stdout (map_assign m key value).
Proof. apply keeps_map_assign, _. Qed.

Lemma stdout_Pool_Get pool : keeps same_stdout (Pool_Get pool).
Proof. unfold Pool_Get. keeps_field. Qed.

Local Hint Resolve stdout_log_unless_quiet stdout_session_init stdout_sc_Decode
  stdout_sc_Encode stdout_SetCookie stdout_map_assign stdout_Pool_Get : keeps.

Lemma stdout_fromReq s r : quiet s = true → keeps same_stdout (fromReq codec s r).
Proof. intros Hq. unfold fromReq. keeps_field. Qed.

Lemma stdout_saveCtx s w r ss : quiet s = true → keeps same_stdout (saveCtx codec s w r ss).
Proof. intros Hq. unfold saveCtx. keeps_field. Qed.

Local Hint Resolve stdout_fromReq stdout_saveCtx : keeps.

(** X3.  A quiet manager prints nothing: with [Quiet] set, no accessor,
    nor the middleware on its way to the wrapped handler, prints a line,
    whatever the codec reports. *)
Theorem quiet_manager_prints_nothing s w r key value ctx pool :
  quiet s = true →
  keeps same_stdout (Get codec s r key) ∧
  keeps same_stdout (List codec s r) ∧
  keeps same_stdout (Set_ codec s w r key value) ∧
  keeps same_stdout (Delete codec s w r key) ∧
  keeps same_stdout (Reset codec s w r) ∧
  keeps same_stdout (Flash codec s w r key value) ∧
  keeps same_stdout (Flashes_ codec s w r) ∧
  keeps same_stdout (FlashesCtx s ctx) ∧
  keeps same_stdout (templ_enter codec s pool w r).
Proof.
  intros Hq. split_and!.
  - unfold Get. keeps_field.
  - unfold List. keeps_field.
  - unfold Set_. keeps_field.
  - unfold Delete. keeps_field.
  - unfold Reset. keeps_field.
  - unfold Flash. keeps_field.
  - unfold Flashes_. keeps_field.
  - unfold FlashesCtx. keeps_field.
  - unfold templ_enter. keeps_field.
Qed.

(** *** The commit step and the slow path, with what they print *)

Lemma wp_result {A} (m : M A) Q st a st' : m st = Ok a st' → wp m Q st → Q a st'.
Proof. unfold wp. by intros ->. Qed.

Lemma saveCtx_stdout s w r ss st st' req v h :
  requests st !! r = Some req →
  sessions st !! ss = Some v →
  headers st !! Header w = Some h →
  saveCtx codec s w r ss st = Ok tt st' →
  stdout st' = stdout st ++ commit_log codec s v.
Proof.
  intros Hr Hs Hh Hsave.
  apply (wp_result _ (λ _ st', stdout st' = stdout st ++ commit_log codec s v) _ _ _ Hsave).
  eapply wp_saveCtx; [exact Hr|exact Hs|]. unfold commit_log.
  destruct (encode codec (sc s) (name s) v) as [encoded|err].
  - eapply wp_SetCookie; [exact Hh|]. cbn. by rewrite app_nil_r.
  - apply wp_log_unless_quiet. destruct (quiet s); cbn; [by rewrite app_nil_r|done].
Qed.

Lemma fromReq_uncached_stdout s r req st st1 data :
  requests st !! r = Some req →
  ctxValue (reqContext req) = None →
  fromReq codec s r st = Ok data st1 →
  stdout st1 = stdout st ++ request_log codec s req.
Proof.
  intros Hr Hc Hfrom.
  apply (wp_result _ (λ _ st1, stdout st1 = stdout st ++ request_log codec s req) _ _ _ Hfrom).
  assert (Hnew : ∀ v : session, (sessions st ++ [v]) !! length (sessions st) = Some v).
  { intros v. by apply list_lookup_middle. }
  assert (Hput : ∀ v v' : session,
             <[length (sessions st) := v']> (sessions st ++ [v]) = sessions st ++ [v']).
  { intros v v'. by rewrite insert_app_r_alt, Nat.sub_diag by lia. }
  unfold fromReq, request_log.
  apply wp_bind. eapply wp_load; [exact Hr|]. rewrite Hc.
  destruct (Request_Cookie _ _) as [value|].
  - apply wp_bind, wp_alloc. cbn.
    apply wp_bind. unfold sc_Decode.
    apply wp_bind, wp_modify.
    apply wp_bind. eapply wp_load; [cbn; apply Hnew|].
    destruct (decode _ _ _ _ _) as [v' [e|]]; cbn [snd].
    + apply wp_bind, wp_assign; [cbn; by rewrite Hnew|]. apply wp_ret.
      apply wp_bind, wp_log_unless_quiet.
      apply wp_bind. eapply wp_session_init.
      { destruct (quiet s); cbn; rewrite Hput; apply Hnew. }
      apply wp_ret. destruct (quiet s); cbn; [by rewrite app_nil_r|done].
    + apply wp_bind, wp_assign; [cbn; by rewrite Hnew|]. apply wp_ret, wp_ret.
      cbn. by rewrite app_nil_r.
  - apply wp_bind, wp_alloc. cbn.
    apply wp_bind. eapply wp_session_init; [cbn; apply Hnew|].
    apply wp_ret. cbn. by rewrite app_nil_r.
Qed.

(** The common end of the mutating accessors: the record is overwritten
    in place and committed. *)
Lemma update_and_commit s w r st data st1 v v' :
  fromReq codec s r st = Ok data st1 →
  sessions st1 !! data = Some v →
  is_Some (headers st !! Header w) →
  ∃ st2,
    (assign sessionsS data v';; saveCtx codec s w r data) st1 = Ok tt st2 ∧
    accessor_effect codec s w r data v' st st1 st2.
Proof.
  intros Hfrom Hv [h Hh].
  pose proof (keeps_fromReq _ _ _ _ _ _ Hfrom) as (Hreq & Hhd & _ & _ & _ & _ & Hnow).
  destruct (fromReq_live _ _ _ _ _ _ Hfrom) as [req Hr].
  set (st1' := over sessionsS (λ l, <[data := v']> l) st1).
  assert (Hv' : sessions st1' !! data = Some v').
  { cbn. apply list_lookup_insert_eq. by eapply lookup_lt_Some. }
  assert (Hh' : headers st1' !! Header w = Some h) by (cbn; by rewrite Hhd).
  destruct (saveCtx_Ok codec s w r data st1' req v' h Hr Hv' Hh')
    as (st2 & Hsave & Hc & Hs & Hcalls & _ & Hl & Hck).
  exists st2. split.
  { by erewrite bind_Ok by (eapply assign_Some; exact Hv). }
  unfold accessor_effect. split_and!; try done.
  - by apply (saveCtx_stdout s w r data st1' st2 req v' h).
  - destruct (encode codec (sc s) (name s) v'); [|by rewrite Hck; cbn].
    destruct Hck as [Hck Hbad]. split.
    + revert Hck. unfold cookies_of. cbn. by rewrite Hhd, Hnow.
    + intros Hname. rewrite Hbad by done. cbn. exact Hhd.
Qed.

Lemma Set_effect s w r key value st data st1 v m :
  fromReq codec s r st = Ok data st1 →
  sessions st1 !! data = Some v →
  Data v = Some m →
  is_Some (headers st !! Header w) →
  ∃ st2,
    Set_ codec s w r key value st = Ok tt st2 ∧
    accessor_effect codec s w r data
      {| Data := Some (<[key:=value]> m); Flashes := Flashes v |} st st1 st2.
Proof.
  intros Hfrom Hv Hm Hh.
  destruct (update_and_commit s w r st data st1 v
              {| Data := Some (<[key:=value]> m); Flashes := Flashes v |})
    as (st2 & Hrun & Heff); [done..|].
  exists st2. split; [|done]. unfold Set_.
  erewrite bind_Ok by exact Hfrom.
  erewrite bind_Ok by (apply load_Some; exact Hv).
  rewrite Hm. by erewrite bind_Ok by done.
Qed.

Lemma Flash_effect s w r key value st data st1 v F :
  fromReq codec s r st = Ok data st1 →
  sessions st1 !! data = Some v →
  Flashes v = Some F →
  is_Some (headers st !! Header w) →
  ∃ st2,
    Flash codec s w r key value st = Ok tt st2 ∧
    accessor_effect codec s w r data
      {| Data := Data v; Flashes := Some (<[key:=value]> F) |} st st1 st2.
Proof.
  intros Hfrom Hv HF Hh.
  destruct (update_and_commit s w r st data st1 v
              {| Data := Data v; Flashes := Some (<[key:=value]> F) |})
    as (st2 & Hrun & Heff); [done..|].
  exists st2. split; [|done]. unfold Flash.
  erewrite bind_Ok by exact Hfrom.
  erewrite bind_Ok by (apply load_Some; exact Hv).
  rewrite HF. by erewrite bind_Ok by done.
Qed.

Lemma Delete_effect s w r key st data st1 v :
  fromReq codec s r st = Ok data st1 →
  sessions st1 !! data = Some v →
  is_Some (headers st !! Header w) →
  ∃ st2,
    Delete codec s w r key st = Ok (map_index (Data v) key) st2 ∧
    accessor_effect codec s w r data
      {| Data := map_delete (Data v) key; Flashes := Flashes v |} st st1 st2.
Proof.
  intros Hfrom Hv Hh.
  destruct (update_and_commit s w r st data st1 v
              {| Data := map_delete (Data v) key; Flashes := Flashes v |})
    as (st2 & Hrun & Heff); [done..|].
  exists st2. split; [|done]. unfold Delete.
  erewrite bind_Ok by exact Hfrom.
  erewrite bind_Ok by (apply load_Some; exact Hv).
  revert Hrun. unfold mbind, M_bind.
  by destruct (assign _ _ _ _) as [[] st'|]; [destruct (saveCtx _ _ _ _ _ _) as [[] ?|]; [intros [= ->]|]|].
Qed.

Lemma Flashes_effect s w r st data st1 v :
  fromReq codec s r st = Ok data st1 →
  sessions st1 !! data = Some v →
  is_Some (headers st !! Header w) →
  ∃ st2,
    Flashes_ codec s w r st = Ok (default ∅ (Flashes v)) st2 ∧
    accessor_effect codec s w r data {| Data := Data v; Flashes := Some ∅ |} st st1 st2.
Proof.
  intros Hfrom Hv Hh.
  destruct (update_and_commit s w r st data st1 v {| Data := Data v; Flashes := Some ∅ |})
    as (st2 & Hrun & Heff); [done..|].
  exists st2. split; [|done]. unfold Flashes_.
  erewrite bind_Ok by exact Hfrom.
  erewrite bind_Ok by (apply load_Some; exact Hv).
  replace (map_range_copy (Flashes v)) with (default (∅ : gmap string iface) (Flashes v))
    by (destruct (Flashes v); [by rewrite map_range_copy_Some|done]).
  revert Hrun. unfold mbind, M_bind.
  by destruct (assign _ _ _ _) as [[] st'|]; [destruct (saveCtx _ _ _ _ _ _) as [[] ?|]; [intros [= ->]|]|].
Qed.

Lemma List_cached s r st data v :
  cached st r data v → List codec s r st = Ok (Data v) st.
Proof.
  intros Hc. unfold List.
  erewrite bind_Ok by (eapply cached_fromReq; exact Hc).
  by erewrite bind_Ok by (apply load_Some; eapply cached_record; exact Hc).
Qed.


(** *** Reading *)

(** X4.  A request without the session cookie and without a record on its
    context has an empty session: [Get] returns the nil interface for
    every key, [List] returns an empty map that is not nil, the codec is
    not called and nothing is printed. *)
Theorem Get_without_cookie_is_nil s r key req st :
  requests st !! r = Some req →
  ctxValue (reqContext req) = None →
  Request_Cookie (reqCookies req) (name s) = None →
  (∃ st1, Get codec s r key st = Ok INil st1 ∧
          calls st1 = calls st ∧ stdout st1 = stdout st) ∧
  (∃ st1, List codec s r st = Ok (Some ∅) st1 ∧
          calls st1 = calls st ∧ stdout st1 = stdout st).
Proof.
  intros Hr Hc Hno.
  assert (Hrec : request_record codec s req = {| Data := Some ∅; Flashes := Some ∅ |}).
  { unfold request_record. by rewrite Hno. }
  assert (Hdec : request_decodes s req = []) by (unfold request_decodes; by rewrite Hno).
  assert (Hlog : request_log codec s req = []) by (unfold request_log; by rewrite Hno).
  destruct (fromReq_uncached codec s r req st Hr Hc) as (st1 & Hfrom & Hs & Hcalls & _).
  pose proof (fromReq_uncached_stdout s r req st st1 _ Hr Hc Hfrom) as Hout.
  rewrite Hdec, app_nil_r in Hcalls. rewrite Hlog, app_nil_r in Hout.
  assert (Hv : sessions st1 !! length (sessions st) = Some {| Data := Some ∅; Flashes := Some ∅ |}).
  { rewrite Hs, Hrec. by apply list_lookup_middle. }
  split; exists st1; (split; [|done]).
  - unfold Get. erewrite bind_Ok by exact Hfrom.
    by erewrite bind_Ok by (apply load_Some; exact Hv).
  - unfold List. erewrite bind_Ok by exact Hfrom.
    by erewrite bind_Ok by (apply load_Some; exact Hv).
Qed.

(** X5.  A cookie the codec rejects does not fail the request: [fromReq]
    returns a new record with both maps initialised, holding whatever the
    codec had written before it gave up, after one call to the codec, and
    the error is printed unless the manager is quiet. *)
Theorem rejected_cookie_gives_initialised_record s r req value v err st :
  requests st !! r = Some req →
  ctxValue (reqContext req) = None →
  Request_Cookie (reqCookies req) (name s) = Some value →
  decode codec (sc s) (name s) value zero_session = (v, Some err) →
  ∃ st1,
    fromReq codec s r st = Ok (length (sessions st)) st1 ∧
    sessions st1 = sessions st ++ [init_fields v] ∧
    is_Some (Data (init_fields v)) ∧ is_Some (Flashes (init_fields v)) ∧
    (∀ m, Data v = Some m → Data (init_fields v) = Some m) ∧
    (Data v = None → Data (init_fields v) = Some ∅) ∧
    calls st1 = calls st ++ [CallDecode (name s) value] ∧
    stdout st1 = stdout st ++ (if quiet s then [] else [decode_failed err]).
Proof.
  intros Hr Hc Hck Hdec.
  destruct (fromReq_uncached codec s r req st Hr Hc) as (st1 & Hfrom & Hs & Hcalls & _).
  pose proof (fromReq_uncached_stdout s r req st st1 _ Hr Hc Hfrom) as Hout.
  revert Hs Hcalls Hout.
  unfold request_record, decoded_record, request_decodes, request_log.
  rewrite Hck, Hdec. cbn. intros Hs Hcalls Hout.
  exists st1. split_and!; try done.
  - apply init_fields_initialised.
  - apply init_fields_initialised.
  - intros m Hm. unfold init_fields. by rewrite Hm.
  - intros Hm. unfold init_fields. by rewrite Hm.
Qed.

(** *** The manager's options *)

(** X6.  Of the options given to [New] only the last one counts, whole:
    nothing of an earlier one is kept.  An empty name in it becomes
    ["_session"], a [MaxAge] of 0 becomes one year, [Quiet] is taken as it
    is; with no options at all the manager has these defaults and is not
    quiet. *)
Theorem New_takes_the_last_options secret opts o :
  New secret (opts ++ [o]) = New secret [o] ∧
  name (New secret [o]) = (if decide (Name o = "") then "_session" else Name o) ∧
  quiet (New secret [o]) = Quiet o ∧
  hashKey (sc (New secret [o])) = secret ∧
  ((0 < MaxAge o)%Z → maxAge (sc (New secret [o])) = MaxAge o) ∧
  (MaxAge o = 0%Z → maxAge (sc (New secret [o])) = 31536000%Z) ∧
  New secret [] = {| sc := {| hashKey := secret; maxAge := 31536000 |};
                     name := "_session"; quiet := false |}.
Proof.
  split_and!; try done.
  - unfold New. by rewrite !foldl_last_option, last_snoc.
  - intros Hpos. rewrite New_maxAge. cbn. by rewrite !decide_False by lia.
  - intros Hz. rewrite New_maxAge. cbn. by rewrite decide_True.
Qed.

(** *** Writing *)

(** X7.  [Set] changes one entry and nothing else of the session: after
    it, [List] returns the data map with the entry set, [Get] of any other
    key returns what the record held for it before, and the flash map of
    the record is the one it had. *)
Theorem Set_leaves_the_rest s w r key value st data st1 v m :
  fromReq codec s r st = Ok data st1 →
  sessions st1 !! data = Some v →
  Data v = Some m →
  is_Some (headers st !! Header w) →
  ∃ st2,
    Set_ codec s w r key value st = Ok tt st2 ∧
    List codec s r st2 = Ok (Some (<[key:=value]> m)) st2 ∧
    (∀ other, other ≠ key →
       Get codec s r other st2 = Ok (map_index (Data v) other) st2) ∧
    cached st2 r data {| Data := Some (<[key:=value]> m); Flashes := Flashes v |}.
Proof.
  intros Hfrom Hv Hm Hh.
  destruct (Set_effect s w r key value st data st1 v m) as (st2 & HSet & Hc & _); [done..|].
  exists st2. split_and!; [done| | |done].
  - by erewrite List_cached by exact Hc.
  - intros other Hne. erewrite Get_cached by exact Hc.
    cbn. by rewrite Hm, lookup_insert_ne.
Qed.

(** X8.  When the codec cannot encode the record, [Set] still takes effect
    for the rest of the request but the client is not told: [Set]
    returns, [Get] on the same request returns the value, no header map
    has changed, and the error is printed unless the manager is quiet. *)
Theorem Set_without_encoding_stays_in_memory s w r key value st data st1 v m err :
  fromReq codec s r st = Ok data st1 →
  sessions st1 !! data = Some v →
  Data v = Some m →
  is_Some (headers st !! Header w) →
  encode codec (sc s) (name s) {| Data := Some (<[key:=value]> m); Flashes := Flashes v |}
  = Failure err →
  ∃ st2,
    Set_ codec s w r key value st = Ok tt st2 ∧
    Get codec s r key st2 = Ok value st2 ∧
    headers st2 = headers st ∧
    stdout st2 = stdout st1 ++ (if quiet s then [] else [encode_failed err]).
Proof.
  intros Hfrom Hv Hm Hh He.
  destruct (Set_effect s w r key value st data st1 v m)
    as (st2 & HSet & Hc & _ & _ & Hout & _ & Hhd); [done..|].
  unfold commit_log in Hout. rewrite He in Hout, Hhd.
  exists st2. split_and!; [done| |done..].
  erewrite Get_cached by exact Hc. cbn. by rewrite lookup_insert_eq.
Qed.

(** X9.  Every commit adds a line: with a manager whose name is a valid
    cookie name, two [Set]s in one request leave two session cookies on
    the response, one after the other, the second carrying both entries;
    the cookie is decoded at most once, by the first of them. *)
Theorem two_Sets_add_two_cookie_lines s w r key1 value1 key2 value2 st data st1 v m
    encoded1 encoded2 :
  isCookieNameValid (name s) = true →
  fromReq codec s r st = Ok data st1 →
  sessions st1 !! data = Some v →
  Data v = Some m →
  is_Some (headers st !! Header w) →
  let v1 := {| Data := Some (<[key1:=value1]> m); Flashes := Flashes v |} in
  let v2 := {| Data := Some (<[key2:=value2]> (<[key1:=value1]> m)); Flashes := Flashes v |} in
  encode codec (sc s) (name s) v1 = Success encoded1 →
  encode codec (sc s) (name s) v2 = Success encoded2 →
  ∃ st3,
    (Set_ codec s w r key1 value1;; Set_ codec s w r key2 value2) st = Ok tt st3 ∧
    cookies_of st3 w
    = cookies_of st w ++ [HCookie (session_cookie s encoded1 (now st));
                          HCookie (session_cookie s encoded2 (now st))] ∧
    calls st3 = calls st1 ++ [CallEncode (name s) v1; CallEncode (name s) v2].
Proof.
  intros Hname Hfrom Hv Hm Hh v1 v2 He1 He2. subst v1 v2.
  destruct (Set_effect s w r key1 value1 st data st1 v m)
    as (st2 & HSet1 & Hc1 & _ & Hcalls1 & _ & Hh2 & Hck1); [done..|].
  rewrite He1 in Hck1. destruct Hck1 as [Hck1 _].
  rewrite cookie_lines_valid in Hck1 by done.
  assert (Hnow2 : now st2 = now st).
  { destruct (response_Set s w r key1 value1 _ _ _ HSet1) as (_ & _ & _ & _ & ?). done. }
  destruct (Set_effect s w r key2 value2 st2 data st2 _ (<[key1:=value1]> m)
              (cached_fromReq codec s _ _ _ _ Hc1) (cached_record _ _ _ _ Hc1) eq_refl Hh2)
    as (st3 & HSet2 & _ & _ & Hcalls2 & _ & _ & Hck2).
  cbn [Flashes] in Hcalls2, Hck2. rewrite He2 in Hck2. destruct Hck2 as [Hck2 _].
  rewrite cookie_lines_valid in Hck2 by done.
  exists st3. split_and!.
  - by erewrite bind_Ok by exact HSet1.
  - by rewrite Hck2, Hck1, Hnow2, <-(assoc_L (++)).
  - by rewrite Hcalls2, Hcalls1, <-(assoc_L (++)).
Qed.


Lemma Reset_Ok s w r req st :
  requests st !! r = Some req →
  is_Some (headers st !! Header w) →
  ∃ st2,
    Reset codec s w r st = Ok tt st2 ∧
    commit_effect codec s w r (length (sessions st)) {| Data := Some ∅; Flashes := Some ∅ |}
      (over sessionsS (λ l, l ++ [ {| Data := Some ∅; Flashes := Some ∅ |} ]) st) st2.
Proof.
  intros Hr [h Hh].
  eapply (saveCtx_Ok codec s w r (length (sessions st))
            (over sessionsS (λ l, l ++ [ {| Data := Some ∅; Flashes := Some ∅ |} ]) st) req _ h).
  - exact Hr.
  - cbn. by apply list_lookup_middle.
  - exact Hh.
Qed.

(** X10.  [Reset] replaces the record without reading the old one: it
    makes a new record with two empty maps, leaves the records that exist
    as they are, commits the new one (one encode call, no decode call) and
    from then on [Get] returns the nil interface for every key and
    [Flashes] returns the empty mapping.  It needs nothing of the old
    record, so it also works where [Set] would panic.  Its cookie is on
    the response when the codec encodes the empty record and the name of
    the manager is a valid cookie name. *)
Theorem Reset_wipes_the_session s w r req st :
  requests st !! r = Some req →
  is_Some (headers st !! Header w) →
  let empty := {| Data := Some ∅; Flashes := Some ∅ |} in
  ∃ st2,
    Reset codec s w r st = Ok tt st2 ∧
    sessions st2 = sessions st ++ [empty] ∧
    cached st2 r (length (sessions st)) empty ∧
    calls st2 = calls st ++ [CallEncode (name s) empty] ∧
    (∀ key, Get codec s r key st2 = Ok INil st2) ∧
    (∃ st3, Flashes_ codec s w r st2 = Ok ∅ st3) ∧
    (∀ encoded, encode codec (sc s) (name s) empty = Success encoded →
       isCookieNameValid (name s) = true →
       cookies_of st2 w = cookies_of st w ++ [HCookie (session_cookie s encoded (now st))]).
Proof.
  intros Hr Hh empty.
  destruct (Reset_Ok s w r req st Hr Hh) as (st2 & Hsave & Hc & Hs & Hcalls & _ & Hl & Hck).
  exists st2. split_and!; try done.
  - intros key. by erewrite Get_cached by exact Hc.
  - destruct (Flashes_effect s w r st2 (length (sessions st)) st2 empty) as (st3 & HF & _);
      [by eapply cached_fromReq|by eapply cached_record|done|].
    by exists st3.
  - intros encoded He Hname. subst empty. rewrite He in Hck. destruct Hck as [Hck _].
    by rewrite cookie_lines_valid in Hck.
Qed.

(** X11.  Which accessors can panic.  On a request whose record [fromReq]
    finds, [Get], [List], [Delete], [Flashes] and [Reset] always return,
    whatever the record holds, nil maps included; [Set] panics exactly
    when the data map of the record is nil, and [Flash] exactly when its
    flash map is. *)
Theorem only_Set_and_Flash_can_panic s w r key value st data st1 v :
  fromReq codec s r st = Ok data st1 →
  sessions st1 !! data = Some v →
  is_Some (headers st !! Header w) →
  Get codec s r key st = Ok (map_index (Data v) key) st1 ∧
  List codec s r st = Ok (Data v) st1 ∧
  (∃ st2, Delete codec s w r key st = Ok (map_index (Data v) key) st2) ∧
  (∃ st2, Flashes_ codec s w r st = Ok (default ∅ (Flashes v)) st2) ∧
  (∃ st2, Reset codec s w r st = Ok tt st2) ∧
  (Data v = None →
     Set_ codec s w r key value st = Panic "assignment to entry in nil map") ∧
  (is_Some (Data v) → ∃ st2, Set_ codec s w r key value st = Ok tt st2) ∧
  (Flashes v = None →
     Flash codec s w r key value st = Panic "assignment to entry in nil map") ∧
  (is_Some (Flashes v) → ∃ st2, Flash codec s w r key value st = Ok tt st2).
Proof.
  intros Hfrom Hv Hh.
  pose proof (keeps_fromReq _ _ _ _ _ _ Hfrom) as (Hreq & _).
  destruct (fromReq_live _ _ _ _ _ _ Hfrom) as [req Hr]. rewrite Hreq in Hr.
  split_and!.
  - unfold Get. erewrite bind_Ok by exact Hfrom.
    by erewrite bind_Ok by (apply load_Some; exact Hv).
  - unfold List. erewrite bind_Ok by exact Hfrom.
    by erewrite bind_Ok by (apply load_Some; exact Hv).
  - destruct (Delete_effect s w r key st data st1 v) as (st2 & ? & _); eauto.
  - destruct (Flashes_effect s w r st data st1 v) as (st2 & ? & _); eauto.
  - destruct (Reset_Ok s w r req st) as (st2 & ? & _); eauto.
  - intros Hnil. unfold Set_. erewrite bind_Ok by exact Hfrom.
    erewrite bind_Ok by (apply load_Some; exact Hv). by rewrite Hnil.
  - intros [m Hm]. destruct (Set_effect s w r key value st data st1 v m) as (st2 & ? & _); eauto.
  - intros Hnil. unfold Flash. erewrite bind_Ok by exact Hfrom.
    erewrite bind_Ok by (apply load_Some; exact Hv). by rewrite Hnil.
  - intros [F HF]. destruct (Flash_effect s w r key value st data st1 v F) as (st2 & ? & _); eauto.
Qed.

(** *** Reading the flashes through the context *)

(** X12.  [FlashesCtx] on a context that carries a record returns the
    flashes and empties the flash map of that very record, in place: the
    data map is kept, a nil flash map stays nil, and a second call returns
    the empty mapping.  Unlike [Flashes] it commits nothing: no codec
    call, no header, no change to any request, nothing printed. *)
Theorem FlashesCtx_reads_and_clears_in_place s ss v st :
  sessions st !! ss = Some v →
  ∃ st1,
    FlashesCtx s {| ctxValue := Some ss |} st = Ok (default ∅ (Flashes v)) st1 ∧
    sessions st1 = <[ss := {| Data := Data v; Flashes := map_clear (Flashes v) |}]> (sessions st) ∧
    calls st1 = calls st ∧ headers st1 = headers st ∧
    requests st1 = requests st ∧ stdout st1 = stdout st ∧
    ∃ st2, FlashesCtx s {| ctxValue := Some ss |} st1 = Ok ∅ st2 ∧
           sessions st2 = sessions st1.
Proof.
  intros Hv.
  assert (Hcopy : ∀ m, map_range_copy m = default ∅ m).
  { intros [g|]; [by rewrite map_range_copy_Some|done]. }
  set (v1 := {| Data := Data v; Flashes := map_clear (Flashes v) |}).
  set (st1 := over sessionsS (λ l, <[ss := v1]> l) st).
  assert (Hv1 : sessions st1 !! ss = Some v1).
  { cbn. apply list_lookup_insert_eq. by eapply lookup_lt_Some. }
  exists st1. split_and!; try done.
  - unfold FlashesCtx. cbn.
    erewrite bind_Ok by (apply load_Some; exact Hv).
    erewrite bind_Ok by (eapply assign_Some; exact Hv).
    by rewrite Hcopy.
  - exists (over sessionsS (λ l, <[ss := v1]> l) st1). split.
    + unfold FlashesCtx. cbn [ctxValue].
      erewrite bind_Ok by (apply load_Some; exact Hv1).
      rewrite Hcopy. cbn [Flashes Data v1].
      replace (map_clear (map_clear (Flashes v))) with (map_clear (Flashes v))
        by (by destruct (Flashes v)).
      erewrite bind_Ok by (eapply assign_Some; exact Hv1).
      by destruct (Flashes v).
    + cbn. by rewrite list_insert_insert_eq.
Qed.


(** *** The response wrapper *)

Lemma string_app_assoc (s1 s2 s3 : string) : (s1 +:+ s2) +:+ s3 = s1 +:+ (s2 +:+ s3).
Proof.
  induction s1 as [|a s1 IH]; [done|].
  change (String a ((s1 +:+ s2) +:+ s3) = String a (s1 +:+ (s2 +:+ s3))). by rewrite IH.
Qed.

Global Instance same_but_wrappers_preorder : PreOrder same_but_wrappers.
Proof.
  split.
  - by intros st.
  - intros st1 st2 st3 (? & ? & ? & ? & ? & ? & ? & ?) (? & ? & ? & ? & ? & ? & ? & ?).
    repeat split; congruence.
Qed.

Lemma write_all_wrapper w ops : ∀ cell c0 buf st,
  wrappers st !! cell = Some c0 →
  buffers st !! rw_b c0 = Some buf →
  ∃ st',
    write_all (wrapper_writer {| rw_cell := cell; rw_w := w |}) ops st = Ok tt st' ∧
    wrappers st' = <[cell := {| rw_b := rw_b c0; rw_c := last_status (rw_c c0) ops |}]> (wrappers st) ∧
    buffers st' = <[rw_b c0 := buf +:+ written ops]> (buffers st) ∧
    same_but_wrappers st st'.
Proof.
  induction ops as [|[code|data] ops IH]; intros cell c0 buf st Hc Hb.
  - exists st. cbn. split_and!; [done| | |done].
    + rewrite list_insert_id; [done|]. by destruct c0.
    + by rewrite string_app_nil_r, list_insert_id.
  - set (c1 := {| rw_b := rw_b c0; rw_c := code |}).
    set (st1 := over wrappersS (λ l, <[cell := c1]> l) st).
    destruct (IH cell c1 buf st1) as (st' & Hrun & Hw & Hbuf & Hsame).
    { cbn. apply list_lookup_insert_eq. by eapply lookup_lt_Some. }
    { exact Hb. }
    exists st'. split_and!.
    + cbn [write_all wrapper_writer WriteHeader]. unfold responseWrapper_WriteHeader.
      erewrite bind_Ok; [exact Hrun|]. cbn [rw_cell].
      erewrite bind_Ok by (apply load_Some; exact Hc).
      by erewrite assign_Some by exact Hc.
    + rewrite Hw. cbn. by rewrite list_insert_insert_eq.
    + exact Hbuf.
    + exact Hsame.
  - set (st1 := over buffersS (λ l, <[rw_b c0 := buf +:+ data]> l) st).
    destruct (IH cell c0 (buf +:+ data) st1) as (st' & Hrun & Hw & Hbuf & Hsame).
    { exact Hc. }
    { cbn. apply list_lookup_insert_eq. by eapply lookup_lt_Some. }
    exists st'. split_and!.
    + cbn [write_all wrapper_writer Write]. unfold responseWrapper_Write.
      erewrite bind_Ok; [exact Hrun|]. cbn [rw_cell].
      erewrite bind_Ok by (apply load_Some; exact Hc).
      erewrite bind_Ok by (apply load_Some; exact Hb).
      by erewrite bind_Ok by (eapply assign_Some; exact Hb).
    + exact Hw.
    + rewrite Hbuf. cbn. by rewrite list_insert_insert_eq, string_app_assoc.
    + exact Hsame.
Qed.


(** X13.  A [responseWrapper] keeps what the handler writes to itself:
    the body bytes are appended to its buffer in the order written, the
    status code it holds is the one of the last [WriteHeader] (not the
    first, as on a real writer), no other wrapper or buffer changes, and
    nothing reaches the underlying writer, its header map or anything
    else in the world. *)
Theorem responseWrapper_buffers_writes w ops cell c0 buf st :
  wrappers st !! cell = Some c0 →
  buffers st !! rw_b c0 = Some buf →
  ∃ st',
    write_all (wrapper_writer {| rw_cell := cell; rw_w := w |}) ops st = Ok tt st' ∧
    wrappers st' !! cell = Some {| rw_b := rw_b c0; rw_c := last_status (rw_c c0) ops |} ∧
    buffers st' !! rw_b c0 = Some (buf +:+ written ops) ∧
    (∀ other, other ≠ cell → wrappers st' !! other = wrappers st !! other) ∧
    (∀ other, other ≠ rw_b c0 → buffers st' !! other = buffers st !! other) ∧
    same_but_wrappers st st'.
Proof.
  intros Hc Hb.
  destruct (write_all_wrapper w ops cell c0 buf st Hc Hb) as (st' & Hrun & Hw & Hbuf & Hsame).
  exists st'. split_and!; [done| | | | |done].
  - rewrite Hw. apply list_lookup_insert_eq. by eapply lookup_lt_Some.
  - rewrite Hbuf. apply list_lookup_insert_eq. by eapply lookup_lt_Some.
  - intros other Hne. rewrite Hw. by apply list_lookup_insert_ne.
  - intros other Hne. rewrite Hbuf. by apply list_lookup_insert_ne.
Qed.

(** *** The middleware, before and after the handler *)

Lemma templ_enter_Ok s pool w r req items st :
  requests st !! r = Some req →
  pools st !! pool = Some items →
  (∀ b, head items = Some b → is_Some (buffers st !! b)) →
  ∃ st1,
    templ_enter codec s pool w r st
    = Ok (length (sessions st), pool_pick items st,
          {| rw_cell := length (wrappers st); rw_w := w |}, length (requests st)) st1 ∧
    entered codec s pool req items st st1.
Proof.
  intros Hr Hp Hlive.
  cut (wp (templ_enter codec s pool w r)
         (λ res st1, res = (length (sessions st), pool_pick items st,
                            {| rw_cell := length (wrappers st); rw_w := w |},
                            length (requests st)) ∧
                     entered codec s pool req items st st1) st).
  { intros (res & st1 & ? & -> & ?)%wp_Ok. eauto. }
  assert (Hnew : ∀ v : session, (sessions st ++ [v]) !! length (sessions st) = Some v).
  { intros v. by apply list_lookup_middle. }
  assert (Hput : ∀ v v' : session,
             <[length (sessions st) := v']> (sessions st ++ [v]) = sessions st ++ [v']).
  { intros v v'. by rewrite insert_app_r_alt, Nat.sub_diag by lia. }
  (* from the call of [pool.Get] on *)
  assert (Htail : ∀ Q st0,
    pools st0 = pools st → buffers st0 = buffers st → wrappers st0 = wrappers st →
    requests st0 = requests st →
    (Q (length (sessions st), pool_pick items st,
        {| rw_cell := length (wrappers st); rw_w := w |}, length (requests st))
            (over requestsS (λ l, l ++ [attach req (length (sessions st))])
               (over wrappersS (λ l, l ++ [ {| rw_b := pool_pick items st; rw_c := 200 |} ])
                  match items with
                  | b :: rest =>
                    over buffersS (λ l, <[b := ""]> l) (over poolsS (λ l, <[pool := rest]> l) st0)
                  | [] =>
                    over buffersS (λ l, <[length (buffers st) := ""]> l)
                      (over buffersS (λ l, l ++ [""]) st0)
                  end))) →
    wp (b ← Pool_Get pool;
        assign buffersS b "";;
        cell ← alloc wrappersS {| rw_b := b; rw_c := 200 |};
        r' ← alloc requestsS {| reqContext := WithValue (reqContext req) (length (sessions st));
                               reqCookies := reqCookies req; reqPath := reqPath req |};
        mret (length (sessions st), b, {| rw_cell := cell; rw_w := w |}, r')) Q st0).
  { intros Q st0 Hp0 Hb0 Hw0 Hr0 HQ.
    apply wp_bind. unfold Pool_Get.
    apply wp_bind. eapply wp_load; [cbn; rewrite Hp0; exact Hp|].
    destruct items as [|b rest].
    - apply wp_alloc. cbn. rewrite Hb0.
      apply wp_bind, wp_assign.
      { cbn. apply lookup_lt_is_Some. rewrite length_app. cbn. lia. }
      apply wp_bind, wp_alloc. cbn. rewrite Hw0.
      apply wp_bind, wp_alloc. cbn. rewrite Hr0. apply wp_ret.
      revert HQ. cbn. by rewrite ?Hb0, ?Hw0, ?Hr0.
    - apply wp_bind, wp_assign; [cbn; by rewrite Hp0, Hp|]. apply wp_ret.
      apply wp_bind, wp_assign.
      { cbn. rewrite Hb0. by apply Hlive. }
      apply wp_bind, wp_alloc. cbn. rewrite Hw0.
      apply wp_bind, wp_alloc. cbn. rewrite Hr0. apply wp_ret.
      revert HQ. cbn. by rewrite ?Hb0, ?Hw0, ?Hr0. }
  assert (Hdone : ∀ rec cs out st0,
    sessions st0 = sessions st ++ [rec] → calls st0 = calls st ++ cs →
    stdout st0 = stdout st ++ out →
    request_record codec s req = rec → request_decodes s req = cs →
    request_log codec s req = out →
    same_outside st st0 →
    wp (b ← Pool_Get pool;
        assign buffersS b "";;
        cell ← alloc wrappersS {| rw_b := b; rw_c := 200 |};
        r' ← alloc requestsS {| reqContext := WithValue (reqContext req) (length (sessions st));
                               reqCookies := reqCookies req; reqPath := reqPath req |};
        mret (length (sessions st), b, {| rw_cell := cell; rw_w := w |}, r'))
      (λ res st1, res = (length (sessions st), pool_pick items st,
                         {| rw_cell := length (wrappers st); rw_w := w |},
                         length (requests st)) ∧
                  entered codec s pool req items st st1) st0).
  { intros rec cs out st0 Hs0 Hc0 Ho0 <- <- <- (Hr0 & Hh0 & Hb0 & Hw0 & Hrec0 & Hp0 & Hn0).
    apply Htail; [done..|]. unfold entered, pool_pick.
    destruct items as [|b rest]; cbn; rewrite ?Hs0, ?Hc0, ?Ho0, ?Hr0, ?Hh0, ?Hb0, ?Hw0, ?Hrec0, ?Hp0, ?Hn0.
    - split_and!; try done.
      + rewrite insert_app_r_alt, Nat.sub_diag by lia. by apply list_lookup_middle.
      + by rewrite list_insert_id.
    - split_and!; try done.
      apply list_lookup_insert_eq. apply lookup_lt_is_Some. apply Hlive. done. }
  unfold templ_enter.
  apply wp_bind, wp_alloc.
  apply wp_bind. eapply wp_load; [exact Hr|].
  apply wp_bind.
  unfold request_record, request_decodes, request_log, decoded_record in Hdone.
  destruct (Request_Cookie _ _) as [value|].
  - apply wp_bind. unfold sc_Decode.
    apply wp_bind, wp_modify.
    apply wp_bind. eapply wp_load; [cbn; apply Hnew|].
    destruct (decode _ _ _ _ _) as [v' [e|]]; cbn [snd] in Hdone.
    + apply wp_bind, wp_assign; [cbn; by rewrite Hnew|]. apply wp_ret.
      apply wp_bind, wp_log_unless_quiet.
      eapply wp_session_init.
      { destruct (quiet s); cbn; rewrite Hput; apply Hnew. }
      eapply Hdone; try done; destruct (quiet s); cbn; rewrite ?Hput, ?app_nil_r; done.
    + apply wp_bind, wp_assign; [cbn; by rewrite Hnew|]. apply wp_ret, wp_ret.
      eapply Hdone; try done; cbn; rewrite ?Hput, ?app_nil_r; done.
  - eapply wp_session_init; [cbn; apply Hnew|].
    eapply Hdone; try done; cbn; rewrite ?Hput, ?app_nil_r; done.
Qed.


(** X14.  What the wrapped handler is given.  [TemplMiddleware] does not
    change the inbound request: the handler gets a copy of it whose
    context carries a new record, read from the cookie even when the
    context of the inbound request already carried one.  Its writer is a
    wrapper whose status is 200 and whose buffer is empty, also when the
    buffer comes from the pool with the bytes of an earlier response in
    it.  The codec is asked to decode once if there is a cookie. *)
Theorem TemplMiddleware_prepares_the_request s pool w r req items st :
  requests st !! r = Some req →
  pools st !! pool = Some items →
  (∀ b, head items = Some b → is_Some (buffers st !! b)) →
  let session := length (sessions st) in
  let b := pool_pick items st in
  let cell := length (wrappers st) in
  let r' := length (requests st) in
  ∃ st1,
    templ_enter codec s pool w r st
    = Ok (session, b, {| rw_cell := cell; rw_w := w |}, r') st1 ∧
    requests st1 !! r = Some req ∧
    requests st1 !! r' = Some (attach req session) ∧
    sessions st1 !! session = Some (request_record codec s req) ∧
    wrappers st1 !! cell = Some {| rw_b := b; rw_c := 200 |} ∧
    buffers st1 !! b = Some "" ∧
    pools st1 !! pool = Some (tail items) ∧
    calls st1 = calls st ++ request_decodes s req ∧
    headers st1 = headers st ∧ recorders st1 = recorders st.
Proof.
  intros Hr Hp Hlive session b cell r'.
  destruct (templ_enter_Ok s pool w r req items st Hr Hp Hlive)
    as (st1 & Henter & Hs & Hreq & Hw & Hb & Hpl & Hcalls & _ & Hh & Hrec & _).
  exists st1. split_and!; try done.
  - rewrite Hreq. by apply lookup_app_l_Some.
  - rewrite Hreq. by apply list_lookup_middle.
  - rewrite Hs. by apply list_lookup_middle.
  - rewrite Hw. by apply list_lookup_middle.
  - rewrite Hpl. apply list_lookup_insert_eq. by eapply lookup_lt_Some.
Qed.

Lemma bind_Panic {A B} (m : M A) (f : A → M B) st msg :
  m st = Panic msg → (m ≫= f) st = Panic msg.
Proof. intros H. unfold mbind, M_bind. by rewrite H. Qed.

Lemma with_cookie_valid hd c :
  isCookieNameValid (cName c) = true →
  with_cookie hd c = Header_Add hd "Set-Cookie" (HCookie c).
Proof. intros Hc. unfold with_cookie. by rewrite Cookie_String_valid. Qed.

(** After a flush to a writer whose header was not written before, by a
    manager whose name is a valid cookie name: the header lines that went
    out are those of the header map with the session cookie added. *)
Lemma flushed_fresh s pool b i h v encoded hd c0 buf rec items st st' :
  isCookieNameValid (name s) = true →
  recCode rec = None →
  headers st !! h = Some hd →
  recorders st !! i = Some rec →
  flushed s pool b i h v encoded hd c0 buf rec items st st' →
  let sent := Header_Add hd "Set-Cookie" (HCookie (session_cookie s encoded (now st))) in
  headers st' !! h = Some sent ∧
  recorders st' !! i
  = Some {| recCode := Some (rw_c c0); snapHeader := Some sent;
            recBody := recBody rec +:+ buf |} ∧
  cookies_of st' (recorder_writer i h)
  = cookies_of st (recorder_writer i h) ++ [HCookie (session_cookie s encoded (now st))].
Proof.
  intros Hname Hnone Hh Hr (Hhd & Hrec & _) sent.
  cbn zeta in Hhd, Hrec. rewrite with_cookie_valid in Hhd, Hrec by done. fold sent in Hhd, Hrec.
  split_and!.
  - rewrite Hhd. apply list_lookup_insert_eq. by eapply lookup_lt_Some.
  - rewrite Hrec. unfold header_written, body_written. rewrite Hnone. cbn.
    apply list_lookup_insert_eq. by eapply lookup_lt_Some.
  - rewrite <-(cookie_lines_valid (session_cookie s encoded (now st))) by done.
    eapply (cookies_of_with_cookie (recorder_writer i h)); [exact Hh|].
    cbn. by rewrite with_cookie_valid.
Qed.

(** X15.  What the host's writer receives when the handler has returned
    and the codec encodes the record, the writer's header not being
    written yet and the name of the manager being a valid cookie name.
    The session cookie is put on the header map before the wrapper is
    flushed: the header lines that go out with the status are those of
    the map with the cookie added.  Then the bytes of the buffer follow,
    and the buffer is emptied and put back in the pool.  The status is
    the one held by the wrapper, which is only checked now: one outside
    100..999 makes the flush panic. *)
Theorem TemplMiddleware_flushes_after_the_cookie
    s pool session b cell i h st v encoded hd c0 buf rec items :
  isCookieNameValid (name s) = true →
  sessions st !! session = Some v →
  encode codec (sc s) (name s) v = Success encoded →
  headers st !! h = Some hd →
  wrappers st !! cell = Some c0 →
  rw_b c0 = b →
  buffers st !! b = Some buf →
  recorders st !! i = Some rec →
  recCode rec = None →
  pools st !! pool = Some items →
  let w := recorder_writer i h in
  let wrapper := {| rw_cell := cell; rw_w := w |} in
  let sent := Header_Add hd "Set-Cookie" (HCookie (session_cookie s encoded (now st))) in
  ((100 ≤ rw_c c0 ≤ 999)%Z →
   ∃ st',
     templ_leave codec s pool session b wrapper st = Ok tt st' ∧
     headers st' !! h = Some sent ∧
     recorders st' !! i
     = Some {| recCode := Some (rw_c c0); snapHeader := Some sent;
               recBody := recBody rec +:+ buf |} ∧
     cookies_of st' w = cookies_of st w ++ [HCookie (session_cookie s encoded (now st))] ∧
     buffers st' !! b = Some "" ∧
     pools st' !! pool = Some (b :: items)) ∧
  ((rw_c c0 < 100 ∨ rw_c c0 > 999)%Z →
   templ_leave codec s pool session b wrapper st
   = Panic ("invalid WriteHeader code " +:+ pretty (rw_c c0))).
Proof.
  intros Hname Hs He Hh Hc Hbc Hb Hr Hnone Hp w wrapper sent. subst b. split.
  - intros Hcode.
    destruct (templ_leave_flush codec s pool session (rw_b c0) cell i h st v encoded hd c0 buf rec items)
      as (st' & Hleave & Hfl); [done..|].
    destruct (flushed_fresh _ _ _ _ _ _ _ _ _ _ _ _ _ _ Hname Hnone Hh Hr Hfl)
      as (Hsent & Hrec & Hck).
    destruct Hfl as (_ & _ & Hbuf & Hpool & _).
    exists st'. split_and!; try done.
    + rewrite Hbuf. apply list_lookup_insert_eq. by eapply lookup_lt_Some.
    + rewrite Hpool. apply list_lookup_insert_eq. by eapply lookup_lt_Some.
  - intros Hcode. unfold templ_leave.
    erewrite bind_Ok; [|unfold sc_Encode; by erewrite bind_Ok by (apply load_Some; exact Hs)].
    rewrite He. erewrite bind_Ok by reflexivity.
    set (st0 := over callsS _ st).
    assert (HSet : SetCookie (wrapper_writer wrapper) (session_cookie s encoded (now st0)) st0
                   = Ok tt (over headersS (λ l, <[h := sent]> l) st0)).
    { unfold SetCookie. rewrite Cookie_String_valid by done.
      erewrite bind_Ok by (apply load_Some; exact Hh).
      by erewrite assign_Some by exact Hh. }
    erewrite bind_Ok by exact HSet.
    apply bind_Panic. unfold responseWrapper_Flush.
    erewrite bind_Ok by (apply load_Some; exact Hc).
    apply bind_Panic. by eapply recorder_WriteHeader_invalid.
Qed.


(** *** Requests served through the middleware *)

Lemma serve_composed s next pool w r st session b wrapper r' st1 st2 st3 :
  templ_enter codec s pool w r st = Ok (session, b, wrapper, r') st1 →
  next (wrapper_writer wrapper) r' st1 = Ok tt st2 →
  templ_leave codec s pool session b wrapper st2 = Ok tt st3 →
  TemplMiddleware_ServeHTTP codec s next pool w r st = Ok tt st3.
Proof.
  intros Henter Hnext Hleave. unfold TemplMiddleware_ServeHTTP.
  erewrite bind_Ok by exact Henter. cbn.
  by erewrite bind_Ok by exact Hnext.
Qed.

(** X16.  A handler that only writes, served through the middleware to a
    writer whose header is not written yet, by a manager whose name is a
    valid cookie name.  When the last status the handler wrote (200 if it
    wrote none) is one of 100..999, the host's writer ends with that
    status and with the bytes the handler wrote, in order; the header
    lines that went out with the status include the session cookie,
    although the handler wrote its body before the cookie was set; the
    buffer is back in the pool, empty; and the inbound request is as it
    came. *)
Theorem TemplMiddleware_serves_a_writing_handler s pool i h r req items ops st rec hd encoded :
  isCookieNameValid (name s) = true →
  requests st !! r = Some req →
  pools st !! pool = Some items →
  (∀ b, head items = Some b → is_Some (buffers st !! b)) →
  recorders st !! i = Some rec →
  recCode rec = None →
  headers st !! h = Some hd →
  encode codec (sc s) (name s) (request_record codec s req) = Success encoded →
  (100 ≤ last_status 200 ops ≤ 999)%Z →
  let w := recorder_writer i h in
  let sent := Header_Add hd "Set-Cookie" (HCookie (session_cookie s encoded (now st))) in
  ∃ st',
    TemplMiddleware_ServeHTTP codec s (λ w _, write_all w ops) pool w r st = Ok tt st' ∧
    recorders st' !! i
    = Some {| recCode := Some (last_status 200 ops); snapHeader := Some sent;
              recBody := recBody rec +:+ written ops |} ∧
    headers st' !! h = Some sent ∧
    buffers st' !! pool_pick items st = Some "" ∧
    pools st' !! pool = Some (pool_pick items st :: tail items) ∧
    requests st' !! r = Some req.
Proof.
  intros Hname Hr Hp Hlive Hrec Hnone Hh He Hcode w sent.
  destruct (templ_enter_Ok s pool w r req items st Hr Hp Hlive)
    as (st1 & Henter & Hs1 & Hreq1 & Hw1 & Hb1 & Hp1 & _ & _ & Hh1 & Hrec1 & Hnow1).
  set (b := pool_pick items st) in *. set (cell := length (wrappers st)) in *.
  destruct (write_all_wrapper w ops cell {| rw_b := b; rw_c := 200 |} "" st1)
    as (st2 & Hnext & Hw2 & Hb2 & Hs2 & Hreq2 & Hh2 & Hrec2 & Hp2 & _ & _ & Hnow2).
  { rewrite Hw1. by apply list_lookup_middle. }
  { exact Hb1. }
  cbn [rw_b rw_c] in Hw2, Hb2.
  assert (Hh' : headers st2 !! h = Some hd) by (by rewrite Hh2, Hh1).
  assert (Hrec' : recorders st2 !! i = Some rec) by (by rewrite Hrec2, Hrec1).
  destruct (templ_leave_flush codec s pool (length (sessions st)) b cell i h st2
              (request_record codec s req) encoded hd
              {| rw_b := b; rw_c := last_status 200 ops |} (written ops) rec (tail items))
    as (st3 & Hleave & Hfl).
  { rewrite Hs2, Hs1. by apply list_lookup_middle. }
  { exact He. }
  { exact Hh'. }
  { rewrite Hw2. apply list_lookup_insert_eq. rewrite Hw1, length_app. cbn. lia. }
  { cbn. rewrite Hb2. apply list_lookup_insert_eq. by eapply lookup_lt_Some. }
  { exact Hrec'. }
  { rewrite Hp2, Hp1. apply list_lookup_insert_eq. by eapply lookup_lt_Some. }
  { done. }
  destruct (flushed_fresh _ _ _ _ _ _ _ _ _ _ _ _ _ _ Hname Hnone Hh' Hrec' Hfl)
    as (Hsent & Hrec3 & _).
  destruct Hfl as (_ & _ & Hb3 & Hp3 & _ & _ & Hreq3 & _). cbn [rw_b rw_c] in *.
  rewrite Hnow2, Hnow1 in Hsent, Hrec3.
  exists st3. split_and!; try done.
  - eapply serve_composed; [exact Henter|exact Hnext|exact Hleave].
  - rewrite Hb3. apply list_lookup_insert_eq. rewrite Hb2, length_insert. by eapply lookup_lt_Some.
  - rewrite Hp3. apply list_lookup_insert_eq. rewrite Hp2, Hp1, length_insert.
    by eapply lookup_lt_Some.
  - rewrite Hreq3, Hreq2, Hreq1. by apply lookup_app_l_Some.
Qed.


(** X17.  Flashes read while rendering are gone from the cookie.  Under
    the middleware, a handler that reads the flashes through the context
    and writes what [template] makes of them is given the flashes of the
    inbound cookie, and the cookie the middleware then sets encodes the
    record with its flash map cleared (a nil flash map stays nil) and its
    data map as it was.  (The writer's header is not written yet, the
    status the template leaves is one of 100..999, and the name of the
    manager is a valid cookie name.) *)
Theorem TemplMiddleware_commits_the_cleared_flashes
    s pool i h r req items template st rec hd encoded :
  isCookieNameValid (name s) = true →
  requests st !! r = Some req →
  pools st !! pool = Some items →
  (∀ b, head items = Some b → is_Some (buffers st !! b)) →
  recorders st !! i = Some rec →
  recCode rec = None →
  headers st !! h = Some hd →
  let v0 := request_record codec s req in
  let v1 := {| Data := Data v0; Flashes := map_clear (Flashes v0) |} in
  let ops := template (default ∅ (Flashes v0)) in
  encode codec (sc s) (name s) v1 = Success encoded →
  (100 ≤ last_status 200 ops ≤ 999)%Z →
  let w := recorder_writer i h in
  let sent := Header_Add hd "Set-Cookie" (HCookie (session_cookie s encoded (now st))) in
  ∃ st',
    TemplMiddleware_ServeHTTP codec s
      (flash_view_handler s (λ flashes w, write_all w (template flashes))) pool w r st
    = Ok tt st' ∧
    recorders st' !! i
    = Some {| recCode := Some (last_status 200 ops); snapHeader := Some sent;
              recBody := recBody rec +:+ written ops |} ∧
    cookies_of st' w = cookies_of st w ++ [HCookie (session_cookie s encoded (now st))] ∧
    calls st' = calls st ++ request_decodes s req ++ [CallEncode (name s) v1] ∧
    sessions st' !! length (sessions st) = Some v1.
Proof.
  intros Hname Hr Hp Hlive Hrec Hnone Hh v0 v1 ops He Hcode w sent.
  destruct (templ_enter_Ok s pool w r req items st Hr Hp Hlive)
    as (st1 & Henter & Hs1 & Hreq1 & Hw1 & Hb1 & Hp1 & Hc1 & _ & Hh1 & Hrec1 & Hnow1).
  set (session := length (sessions st)) in *.
  set (b := pool_pick items st) in *. set (cell := length (wrappers st)) in *.
  assert (Hv0 : sessions st1 !! session = Some v0).
  { rewrite Hs1. by apply list_lookup_middle. }
  set (st1a := over sessionsS (λ l, <[session := v1]> l) st1).
  destruct (write_all_wrapper w ops cell {| rw_b := b; rw_c := 200 |} "" st1a)
    as (st2 & Hwrite & Hw2 & Hb2 & Hs2 & Hreq2 & Hh2 & Hrec2 & Hp2 & _ & Hc2 & Hnow2).
  { cbn. rewrite Hw1. by apply list_lookup_middle. }
  { exact Hb1. }
  cbn [rw_b rw_c] in Hw2, Hb2. cbn in Hw2, Hb2, Hs2, Hreq2, Hh2, Hrec2, Hp2, Hc2, Hnow2.
  assert (Hnext : flash_view_handler s (λ flashes w, write_all w (template flashes))
                    (wrapper_writer {| rw_cell := cell; rw_w := w |})
                    (length (requests st)) st1 = Ok tt st2).
  { unfold flash_view_handler.
    erewrite bind_Ok by (apply load_Some; cbn; rewrite Hreq1; by apply list_lookup_middle).
    unfold FlashesCtx. cbn [attach reqContext WithValue ctxValue].
    erewrite bind_Ok; [exact Hwrite|].
    erewrite bind_Ok by (apply load_Some; exact Hv0).
    erewrite bind_Ok by (eapply assign_Some; exact Hv0).
    unfold ops. fold v0. by destruct (Flashes v0); rewrite ?map_range_copy_Some. }
  assert (Hv1 : sessions st2 !! session = Some v1).
  { rewrite Hs2. apply list_lookup_insert_eq. by eapply lookup_lt_Some. }
  assert (Hh' : headers st2 !! h = Some hd) by (by rewrite Hh2, Hh1).
  assert (Hrec' : recorders st2 !! i = Some rec) by (by rewrite Hrec2, Hrec1).
  destruct (templ_leave_flush codec s pool session b cell i h st2 v1 encoded hd
              {| rw_b := b; rw_c := last_status 200 ops |} (written ops) rec (tail items))
    as (st3 & Hleave & Hfl).
  { exact Hv1. }
  { exact He. }
  { exact Hh'. }
  { rewrite Hw2. apply list_lookup_insert_eq. rewrite Hw1, length_app. cbn. lia. }
  { cbn. rewrite Hb2. apply list_lookup_insert_eq. by eapply lookup_lt_Some. }
  { exact Hrec'. }
  { rewrite Hp2, Hp1. apply list_lookup_insert_eq. by eapply lookup_lt_Some. }
  { done. }
  destruct (flushed_fresh _ _ _ _ _ _ _ _ _ _ _ _ _ _ Hname Hnone Hh' Hrec' Hfl)
    as (_ & Hrec3 & Hck).
  destruct Hfl as (_ & _ & _ & _ & Hc3 & Hs3 & _). cbn [rw_b rw_c] in *.
  rewrite Hnow2, Hnow1 in Hrec3, Hck.
  exists st3. split_and!; try done.
  - eapply serve_composed; [exact Henter|exact Hnext|exact Hleave].
  - subst w. rewrite Hck. unfold cookies_of. by rewrite Hh2, Hh1.
  - by rewrite Hc3, Hc2, Hc1, <-(assoc_L (++)).
  - by rewrite Hs3.
Qed.


(** X18.  A [Reset] made by a handler under the middleware does not reach
    the last cookie.  [Reset] sets a cookie for the new, empty record,
    but the middleware then encodes the record it attached on the way in,
    which [Reset] has not touched, and sets that cookie after it: the
    last [Set-Cookie] line carries the session as it came in.  (The name
    of the manager is a valid cookie name.) *)
Theorem Reset_under_TemplMiddleware_is_overridden
    s pool i h r req items st rec hd encoded_empty encoded_old :
  isCookieNameValid (name s) = true →
  requests st !! r = Some req →
  pools st !! pool = Some items →
  (∀ b, head items = Some b → is_Some (buffers st !! b)) →
  recorders st !! i = Some rec →
  headers st !! h = Some hd →
  let empty := {| Data := Some ∅; Flashes := Some ∅ |} in
  let old := request_record codec s req in
  encode codec (sc s) (name s) empty = Success encoded_empty →
  encode codec (sc s) (name s) old = Success encoded_old →
  let w := recorder_writer i h in
  ∃ st',
    TemplMiddleware_ServeHTTP codec s (reset_route codec s) pool w r st = Ok tt st' ∧
    cookies_of st' w
    = cookies_of st w ++ [HCookie (session_cookie s encoded_empty (now st));
                          HCookie (session_cookie s encoded_old (now st))] ∧
    calls st'
    = calls st ++ request_decodes s req ++
      [CallEncode (name s) empty; CallEncode (name s) old].
Proof.
  intros Hname Hr Hp Hlive Hrec Hh empty old He1 He0 w.
  destruct (templ_enter_Ok s pool w r req items st Hr Hp Hlive)
    as (st1 & Henter & Hs1 & Hreq1 & Hw1 & Hb1 & Hp1 & Hc1 & _ & Hh1 & Hrec1 & Hnow1).
  set (session := length (sessions st)) in *.
  set (b := pool_pick items st) in *. set (cell := length (wrappers st)) in *.
  set (ww := wrapper_writer {| rw_cell := cell; rw_w := w |}).
  destruct (Reset_Ok s ww (length (requests st)) (attach req session) st1)
    as (st2 & Hnext & _ & Hs2 & Hc2 & _ & [hd2 Hh2] & Hck2).
  { rewrite Hreq1. by apply list_lookup_middle. }
  { cbn. rewrite Hh1. by eexists. }
  fold empty in Hs2, Hc2, Hck2. rewrite He1 in Hck2. destruct Hck2 as [Hck2 _].
  rewrite cookie_lines_valid in Hck2 by done. cbn in Hs2, Hc2, Hh2.
  destruct (response_Reset s ww _ _ _ _ Hnext) as (Hrec2 & Hb2 & Hw2 & Hp2 & Hnow2).
  destruct (templ_leave_flush codec s pool session b cell i h st2 old encoded_old hd2
              {| rw_b := b; rw_c := 200 |} "" rec (tail items))
    as (st3 & Hleave & Hhd3 & _ & _ & _ & Hc3 & _).
  { rewrite Hs2, Hs1. apply lookup_app_l_Some. by apply list_lookup_middle. }
  { exact He0. }
  { exact Hh2. }
  { rewrite Hw2, Hw1. by apply list_lookup_middle. }
  { cbn. by rewrite Hb2. }
  { by rewrite Hrec2, Hrec1. }
  { rewrite Hp2, Hp1. apply list_lookup_insert_eq. by eapply lookup_lt_Some. }
  { intros _. cbn. lia. }
  pose proof (cookies_of_with_cookie w hd2 _ st2 st3 Hh2 Hhd3) as Hck3.
  rewrite cookie_lines_valid in Hck3 by done.
  exists st3. split_and!.
  - eapply serve_composed; [exact Henter|exact Hnext|exact Hleave].
  - rewrite Hck3. change (cookies_of st2 w) with (cookies_of st2 ww).
    rewrite Hck2, Hnow2, ?Hnow1, <-(assoc_L (++)). unfold cookies_of. cbn. by rewrite Hh1, ?Hnow1.
  - by rewrite Hc3, Hc2, Hc1, <-!(assoc_L (++)).
Qed.

(** X19.  A [Flash] made by a handler under the middleware does reach the
    last cookie: [Flash] changes the record the middleware attached, in
    place, so the cookie the middleware sets after the handler encodes
    the record with the flash in it, as the cookie [Flash] itself set
    did; both lines go out with the status the handler wrote afterwards,
    which is the one flushed.  (The writer's header is not written yet
    and the name of the manager is a valid cookie name.) *)
Theorem Flash_under_TemplMiddleware_is_committed
    s pool i h r req items key flash F st rec hd encoded :
  isCookieNameValid (name s) = true →
  requests st !! r = Some req →
  pools st !! pool = Some items →
  (∀ b, head items = Some b → is_Some (buffers st !! b)) →
  recorders st !! i = Some rec →
  recCode rec = None →
  headers st !! h = Some hd →
  let old := request_record codec s req in
  let new := {| Data := Data old; Flashes := Some (<[key:=flash]> F) |} in
  Flashes old = Some F →
  encode codec (sc s) (name s) new = Success encoded →
  let w := recorder_writer i h in
  let line := HCookie (session_cookie s encoded (now st)) in
  ∃ st' sent,
    TemplMiddleware_ServeHTTP codec s (flash_route codec s key flash) pool w r st = Ok tt st' ∧
    cookies_of st' w = cookies_of st w ++ [line; line] ∧
    headers st' !! h = Some sent ∧
    recorders st' !! i
    = Some {| recCode := Some 204%Z; snapHeader := Some sent; recBody := recBody rec |} ∧
    sessions st' !! length (sessions st) = Some new.
Proof.
  intros Hname Hr Hp Hlive Hrec Hnone Hh old new HF He w line.
  destruct (templ_enter_Ok s pool w r req items st Hr Hp Hlive)
    as (st1 & Henter & Hs1 & Hreq1 & Hw1 & Hb1 & Hp1 & Hc1 & _ & Hh1 & Hrec1 & Hnow1).
  set (session := length (sessions st)) in *.
  set (b := pool_pick items st) in *. set (cell := length (wrappers st)) in *.
  set (ww := wrapper_writer {| rw_cell := cell; rw_w := w |}).
  assert (Hold : sessions st1 !! session = Some old).
  { rewrite Hs1. by apply list_lookup_middle. }
  destruct (Flash_effect s ww (length (requests st)) key flash st1 session st1 old F)
    as (st2 & HFlash & _ & Hs2 & _ & _ & [hd2 Hh2] & Hck2).
  { eapply fromReq_cached; [rewrite Hreq1; by apply list_lookup_middle|done]. }
  { exact Hold. }
  { exact HF. }
  { cbn. rewrite Hh1. by eexists. }
  fold new in Hs2, Hck2. rewrite He in Hck2. destruct Hck2 as [Hck2 _].
  rewrite cookie_lines_valid in Hck2 by done. cbn in Hh2.
  destruct (response_Flash s ww _ key flash _ _ _ HFlash) as (Hrec2 & Hb2 & Hw2 & Hp2 & Hnow2).
  set (st2a := over wrappersS (λ l, <[cell := {| rw_b := b; rw_c := 204 |}]> l) st2).
  assert (Hcell : wrappers st2 !! cell = Some {| rw_b := b; rw_c := 200 |}).
  { rewrite Hw2, Hw1. by apply list_lookup_middle. }
  assert (Hnext : flash_route codec s key flash ww (length (requests st)) st1 = Ok tt st2a).
  { unfold flash_route. erewrite bind_Ok by exact HFlash.
    cbn [ww wrapper_writer WriteHeader]. unfold responseWrapper_WriteHeader. cbn [rw_cell].
    erewrite bind_Ok by (apply load_Some; exact Hcell).
    by erewrite assign_Some by exact Hcell. }
  assert (Hh' : headers st2a !! h = Some hd2) by exact Hh2.
  assert (Hrec' : recorders st2a !! i = Some rec) by (cbn; by rewrite Hrec2, Hrec1).
  destruct (templ_leave_flush codec s pool session b cell i h st2a new encoded hd2
              {| rw_b := b; rw_c := 204 |} "" rec (tail items))
    as (st3 & Hleave & Hfl).
  { cbn. rewrite Hs2. apply list_lookup_insert_eq. by eapply lookup_lt_Some. }
  { exact He. }
  { exact Hh'. }
  { cbn. apply list_lookup_insert_eq. by eapply lookup_lt_Some. }
  { cbn. by rewrite Hb2. }
  { exact Hrec'. }
  { cbn. rewrite Hp2, Hp1. apply list_lookup_insert_eq. by eapply lookup_lt_Some. }
  { intros _. cbn. lia. }
  destruct (flushed_fresh _ _ _ _ _ _ _ _ _ _ _ _ _ _ Hname Hnone Hh' Hrec' Hfl)
    as (Hsent & Hrec3 & Hck3).
  destruct Hfl as (_ & _ & _ & _ & _ & Hs3 & _). cbn [rw_b rw_c] in *.
  exists st3. eexists. split_and!.
  - eapply serve_composed; [exact Henter|exact Hnext|exact Hleave].
  - subst w. rewrite Hck3.
    change (cookies_of st2a (recorder_writer i h)) with (cookies_of st2 ww).
    change (now st2a) with (now st2).
    rewrite Hck2, Hnow2, ?Hnow1, <-(assoc_L (++)). unfold cookies_of. cbn. by rewrite Hh1, ?Hnow1.
  - exact Hsent.
  - by rewrite Hrec3, string_app_nil_r.
  - rewrite Hs3. cbn. rewrite Hs2. apply list_lookup_insert_eq. by eapply lookup_lt_Some.
Qed.


(** *** From one request to the next *)

Lemma request_record_decoded s req value v :
  Request_Cookie (reqCookies req) (name s) = Some value →
  decode codec (sc s) (name s) value zero_session = (v, None) →
  request_record codec s req = v.
Proof. intros Hck Hdec. unfold request_record, decoded_record. by rewrite Hck, Hdec. Qed.

(** X20.  What [Set] stores comes back on the next request.  If the name
    of the manager is a valid cookie name and the codec decodes what it
    encoded, then the last cookie [Set] leaves on the response carries
    the manager's name and the encoded record, and on any later request
    that presents that value under that name, [Get] returns the value set
    for the key and, for every other key, what the session held before. *)
Theorem Set_reaches_the_next_request
    s w r key value st data st1 v m encoded r2 req2 st' :
  isCookieNameValid (name s) = true →
  fromReq codec s r st = Ok data st1 →
  sessions st1 !! data = Some v →
  Data v = Some m →
  is_Some (headers st !! Header w) →
  let v' := {| Data := Some (<[key:=value]> m); Flashes := Flashes v |} in
  encode codec (sc s) (name s) v' = Success encoded →
  decode codec (sc s) (name s) encoded zero_session = (v', None) →
  requests st' !! r2 = Some req2 →
  ctxValue (reqContext req2) = None →
  Request_Cookie (reqCookies req2) (name s) = Some encoded →
  (∃ st2 cookie,
     Set_ codec s w r key value st = Ok tt st2 ∧
     last (cookies_of st2 w) = Some (HCookie cookie) ∧
     cName cookie = name s ∧ cValue cookie = encoded) ∧
  (∃ st2', Get codec s r2 key st' = Ok value st2') ∧
  (∀ other, other ≠ key →
     ∃ st2', Get codec s r2 other st' = Ok (map_index (Data v) other) st2').
Proof.
  intros Hname Hfrom Hv Hm Hh v' He Hd Hr2 Hc2 Hck2.
  pose proof (request_record_decoded s req2 encoded v' Hck2 Hd) as Hrec.
  split_and!.
  - destruct (Set_effect s w r key value st data st1 v m) as (st2 & HSet & _ & _ & _ & _ & _ & Hck);
      [done..|].
    fold v' in Hck. rewrite He in Hck. destruct Hck as [Hck _].
    rewrite cookie_lines_valid in Hck by done.
    exists st2, (session_cookie s encoded (now st)). split_and!; [done| |done..].
    by rewrite Hck, last_snoc.
  - destruct (Get_uncached codec s r2 key req2 st' Hr2 Hc2) as (st2' & HGet & _).
    exists st2'. rewrite HGet, Hrec. cbn. by rewrite lookup_insert_eq.
  - intros other Hne.
    destruct (Get_uncached codec s r2 other req2 st' Hr2 Hc2) as (st2' & HGet & _).
    exists st2'. rewrite HGet, Hrec. cbn. by rewrite Hm, lookup_insert_ne.
Qed.

(** X21.  A flash is shown once.  On a request whose cookie decodes to a
    record with flashes, [Flashes] returns them and, the name of the
    manager being a valid cookie name, sets a cookie that encodes the
    record without them; if the codec decodes what it encoded, [Flashes]
    on a later request that presents that cookie returns the empty
    mapping, while [Get] still finds the data. *)
Theorem flash_is_shown_once_across_requests
    s w r req value v1 encoded st w3 r3 req3 st3 :
  isCookieNameValid (name s) = true →
  requests st !! r = Some req →
  ctxValue (reqContext req) = None →
  Request_Cookie (reqCookies req) (name s) = Some value →
  decode codec (sc s) (name s) value zero_session = (v1, None) →
  is_Some (headers st !! Header w) →
  let v2 := {| Data := Data v1; Flashes := Some ∅ |} in
  encode codec (sc s) (name s) v2 = Success encoded →
  decode codec (sc s) (name s) encoded zero_session = (v2, None) →
  requests st3 !! r3 = Some req3 →
  ctxValue (reqContext req3) = None →
  Request_Cookie (reqCookies req3) (name s) = Some encoded →
  is_Some (headers st3 !! Header w3) →
  (∃ st2 cookie,
     Flashes_ codec s w r st = Ok (default ∅ (Flashes v1)) st2 ∧
     last (cookies_of st2 w) = Some (HCookie cookie) ∧
     cName cookie = name s ∧ cValue cookie = encoded) ∧
  (∃ st4, Flashes_ codec s w3 r3 st3 = Ok ∅ st4) ∧
  (∀ key, ∃ st4, Get codec s r3 key st3 = Ok (map_index (Data v1) key) st4).
Proof.
  intros Hname Hr Hc Hck Hd Hh v2 He Hd2 Hr3 Hc3 Hck3 Hh3.
  pose proof (request_record_decoded s req value v1 Hck Hd) as Hrec.
  pose proof (request_record_decoded s req3 encoded v2 Hck3 Hd2) as Hrec3.
  split_and!.
  - destruct (fromReq_uncached codec s r req st Hr Hc) as (st1 & Hfrom & Hs & _).
    destruct (Flashes_effect s w r st (length (sessions st)) st1 v1)
      as (st2 & HF & _ & _ & _ & _ & _ & Hcookie); [done| |done|].
    { rewrite Hs, Hrec. by apply list_lookup_middle. }
    fold v2 in Hcookie. rewrite He in Hcookie. destruct Hcookie as [Hcookie _].
    rewrite cookie_lines_valid in Hcookie by done.
    exists st2, (session_cookie s encoded (now st)). split_and!; [done| |done..].
    by rewrite Hcookie, last_snoc.
  - destruct (fromReq_uncached codec s r3 req3 st3 Hr3 Hc3) as (st1 & Hfrom & Hs & _).
    destruct (Flashes_effect s w3 r3 st3 (length (sessions st3)) st1 v2)
      as (st4 & HF & _); [done| |done|].
    { rewrite Hs, Hrec3. by apply list_lookup_middle. }
    by exists st4.
  - intros key.
    destruct (Get_uncached codec s r3 key req3 st3 Hr3 Hc3) as (st4 & HGet & _).
    exists st4. by rewrite HGet, Hrec3.
Qed.

End MoreProperties.

(** ** The further properties at concrete inputs *)

Lemma quiet_manager_prints_nothing_witness :
  let s := New "secret" [ {| Name := ""; MaxAge := 0; Quiet := true |} ] in
  let st := inbound "/" [("_session", "garbage")] in
  ∃ value st', Get test_codec s 0 "name" st = Ok value st' ∧ stdout st' = [].
Proof.
  intros s st.
  destruct (quiet_manager_prints_nothing test_codec s rr 0 "name" INil
              {| ctxValue := None |} 0 eq_refl) as (HGet & _).
  assert (∃ value st', Get test_codec s 0 "name" st = Ok value st') as (value & st' & Hrun).
  { eexists _, _. vm_compute. reflexivity. }
  exists value, st'. split; [exact Hrun|].
  exact (HGet _ _ _ Hrun).
Defined.

Lemma Get_without_cookie_is_nil_witness :
  let s := New "secret" [] in
  ∃ st1, Get test_codec s 0 "notfound" (inbound "/" []) = Ok INil st1 ∧ calls st1 = [].
Proof.
  intros s.
  edestruct Get_without_cookie_is_nil
    with (codec := test_codec) (s := s) (r := 0) (key := "notfound") (st := inbound "/" [])
    as [(st1 & HGet & Hcalls & _) _].
  - vm_compute. reflexivity.
  - reflexivity.
  - reflexivity.
  - exists st1. split; [exact HGet|exact Hcalls].
Defined.

Lemma rejected_cookie_gives_initialised_record_witness :
  let s := New "secret" [] in
  let st := inbound "/" [("_session", "garbage")] in
  ∃ st1,
    fromReq test_codec s 0 st = Ok 0 st1 ∧
    sessions st1 = [ {| Data := Some ∅; Flashes := Some ∅ |} ] ∧
    stdout st1 = [decode_failed "securecookie: the value is not valid"].
Proof.
  intros s st.
  edestruct rejected_cookie_gives_initialised_record
    with (codec := test_codec) (s := s) (r := 0) (st := st)
    as (st1 & Hfrom & Hs & _ & _ & _ & _ & _ & Hout).
  - vm_compute. reflexivity.
  - reflexivity.
  - vm_compute. reflexivity.
  - vm_compute. reflexivity.
  - exists st1. split; [exact Hfrom|]. split; [exact Hs|exact Hout].
Defined.

Lemma Set_leaves_the_rest_witness :
  let s := New "secret" [] in
  let st := inbound "/" [("_session", "ben")] in
  ∃ st2,
    Set_ test_codec s rr 0 "city" (IString "Oslo") st = Ok tt st2 ∧
    Get test_codec s 0 "name" st2 = Ok (IString "Ben") st2 ∧
    List test_codec s 0 st2
    = Ok (Some (<["city" := IString "Oslo"]> {["name" := IString "Ben"]})) st2.
Proof.
  intros s st.
  edestruct (Set_leaves_the_rest test_codec s rr 0 "city" (IString "Oslo") st)
    as (st2 & HSet & HList & HGet & _).
  - vm_compute. reflexivity.
  - vm_compute. reflexivity.
  - vm_compute. reflexivity.
  - vm_compute. eexists. reflexivity.
  - exists st2. split; [exact HSet|]. split; [|exact HList].
    apply (HGet "name"). discriminate.
Defined.

Lemma Set_without_encoding_stays_in_memory_witness :
  let s := New "secret" [] in
  let st := inbound "/" [] in
  ∃ st2,
    Set_ test_codec s rr 0 "huge" (IString "x") st = Ok tt st2 ∧
    Get test_codec s 0 "huge" st2 = Ok (IString "x") st2 ∧
    headers st2 = [∅] ∧
    stdout st2 = [encode_failed "securecookie: the value is too long"].
Proof.
  intros s st.
  edestruct (Set_without_encoding_stays_in_memory test_codec s rr 0 "huge" (IString "x") st)
    as (st2 & HSet & HGet & Hh & Hout).
  - vm_compute. reflexivity.
  - vm_compute. reflexivity.
  - vm_compute. reflexivity.
  - vm_compute. eexists. reflexivity.
  - vm_compute. reflexivity.
  - exists st2. split; [exact HSet|]. split; [exact HGet|]. split; [exact Hh|exact Hout].
Defined.

Lemma two_Sets_add_two_cookie_lines_witness :
  let s := New "secret" [] in
  let st := inbound "/" [("_session", "ben")] in
  ∃ st3,
    (Set_ test_codec s rr 0 "key1" (IString "value1");;
     Set_ test_codec s rr 0 "key2" (IString "value2")) st = Ok tt st3 ∧
    cookies_of st3 rr = [HCookie (session_cookie s "sealed" 1700000000);
                         HCookie (session_cookie s "sealed" 1700000000)].
Proof.
  intros s st.
  edestruct (two_Sets_add_two_cookie_lines test_codec s rr 0
               "key1" (IString "value1") "key2" (IString "value2") st)
    as (st3 & Hrun & Hck & _).
  - vm_compute. reflexivity.
  - vm_compute. reflexivity.
  - vm_compute. reflexivity.
  - vm_compute. reflexivity.
  - vm_compute. eexists. reflexivity.
  - vm_compute. reflexivity.
  - vm_compute. reflexivity.
  - exists st3. split; [exact Hrun|exact Hck].
Defined.

Lemma Reset_wipes_the_session_witness :
  let s := New "secret" [] in
  let st := inbound "/" [("_session", "bare")] in
  ∃ st2,
    Reset test_codec s rr 0 st = Ok tt st2 ∧
    Get test_codec s 0 "name" st2 = Ok INil st2 ∧
    calls st2 = [CallEncode "_session" {| Data := Some ∅; Flashes := Some ∅ |}] ∧
    cookies_of st2 rr = [HCookie (session_cookie s "sealed" 1700000000)].
Proof.
  intros s st.
  edestruct Reset_wipes_the_session
    with (codec := test_codec) (s := s) (w := rr) (r := 0) (st := st)
    as (st2 & HReset & _ & _ & Hcalls & HGet & _ & Hck).
  - vm_compute. reflexivity.
  - vm_compute. eexists. reflexivity.
  - exists st2. split; [exact HReset|]. split; [apply HGet|]. split; [exact Hcalls|].
    apply Hck; vm_compute; reflexivity.
Defined.

Lemma only_Set_and_Flash_can_panic_witness :
  let s := New "secret" [] in
  let st := inbound "/" [("_session", "bare")] in
  (∃ st1, List test_codec s 0 st = Ok None st1) ∧
  (∃ st2, Delete test_codec s rr 0 "name" st = Ok INil st2) ∧
  Set_ test_codec s rr 0 "name" (IString "Ben") st = Panic "assignment to entry in nil map".
Proof.
  intros s st.
  edestruct (only_Set_and_Flash_can_panic test_codec s rr 0 "name" (IString "Ben") st)
    as (_ & HList & HDelete & _ & _ & HSet & _).
  - vm_compute. reflexivity.
  - vm_compute. reflexivity.
  - vm_compute. eexists. reflexivity.
  - split; [eexists; exact HList|]. split; [exact HDelete|]. apply HSet. reflexivity.
Defined.

Lemma FlashesCtx_reads_and_clears_in_place_witness :
  let s := New "secret" [] in
  ∃ st1 st2,
    FlashesCtx s {| ctxValue := Some 0 |} with_notice
    = Ok {["notice" := IString "hi"]} st1 ∧
    sessions st1 = [ {| Data := Some {["name" := IString "Ben"]}; Flashes := Some ∅ |} ] ∧
    FlashesCtx s {| ctxValue := Some 0 |} st1 = Ok ∅ st2.
Proof.
  intros s.
  edestruct FlashesCtx_reads_and_clears_in_place
    with (s := s) (ss := 0) (st := with_notice)
    as (st1 & H1 & Hs & _ & _ & _ & _ & st2 & H2 & _).
  - vm_compute. reflexivity.
  - exists st1, st2. split; [exact H1|]. split; [exact Hs|exact H2].
Defined.

Lemma responseWrapper_buffers_writes_witness :
  ∃ st',
    write_all (wrapper_writer {| rw_cell := 0; rw_w := rr |})
      [OpWrite " world"; OpWriteHeader 404; OpWriteHeader 201; OpWrite "!"] buffered
    = Ok tt st' ∧
    wrappers st' !! 0 = Some {| rw_b := 0; rw_c := 201 |} ∧
    buffers st' !! 0 = Some "hello world!" ∧
    recorders st' = recorders buffered.
Proof.
  edestruct responseWrapper_buffers_writes
    with (w := rr) (ops := [OpWrite " world"; OpWriteHeader 404; OpWriteHeader 201; OpWrite "!"])
         (cell := 0) (st := buffered)
    as (st' & Hrun & Hw & Hb & _ & _ & _ & _ & _ & Hrec & _).
  - vm_compute. reflexivity.
  - vm_compute. reflexivity.
  - exists st'. split; [exact Hrun|]. split; [exact Hw|]. split; [exact Hb|exact Hrec].
Defined.

Lemma TemplMiddleware_prepares_the_request_witness :
  let s := New "secret" [] in
  let st := pooled "/" [("_session", "ben")] in
  ∃ st1,
    templ_enter test_codec s 0 rr 0 st = Ok (0, 0, {| rw_cell := 0; rw_w := rr |}, 1) st1 ∧
    requests st1 !! 0 = requests st !! 0 ∧
    buffers st1 !! 0 = Some "" ∧
    wrappers st1 !! 0 = Some {| rw_b := 0; rw_c := 200 |}.
Proof.
  intros s st.
  edestruct TemplMiddleware_prepares_the_request
    with (codec := test_codec) (s := s) (pool := 0) (w := rr) (r := 0) (st := st)
    as (st1 & Henter & Hr & _ & _ & Hw & Hb & _).
  - vm_compute. reflexivity.
  - vm_compute. reflexivity.
  - intros b [= <-]. vm_compute. eexists. reflexivity.
  - exists st1. split; [exact Henter|]. split; [exact Hr|]. split; [exact Hb|exact Hw].
Defined.

Lemma TemplMiddleware_flushes_after_the_cookie_witness :
  let s := New "secret" [] in
  let line := HCookie (session_cookie s "sealed" 1700000000) in
  (∃ st',
     templ_leave test_codec s 0 0 0 {| rw_cell := 0; rw_w := rr |} buffered = Ok tt st' ∧
     recorders st' !! 0
     = Some {| recCode := Some 200%Z; snapHeader := Some (Header_Add ∅ "Set-Cookie" line);
               recBody := "hello" |} ∧
     cookies_of st' rr = [line] ∧
     pools st' !! 0 = Some [0]) ∧
  templ_leave test_codec s 0 0 0 {| rw_cell := 0; rw_w := rr |}
    (over wrappersS (λ _, [ {| rw_b := 0; rw_c := 1000 |} ]) buffered)
  = Panic "invalid WriteHeader code 1000".
Proof.
  intros s line. split.
  - edestruct TemplMiddleware_flushes_after_the_cookie
      with (codec := test_codec) (s := s) (pool := 0) (session := 0) (b := 0) (cell := 0)
           (i := 0) (h := 0) (st := buffered)
      as [Hvalid _].
    + vm_compute. reflexivity.
    + vm_compute. reflexivity.
    + vm_compute. reflexivity.
    + vm_compute. reflexivity.
    + vm_compute. reflexivity.
    + reflexivity.
    + vm_compute. reflexivity.
    + vm_compute. reflexivity.
    + reflexivity.
    + vm_compute. reflexivity.
    + destruct Hvalid as (st' & Hleave & _ & Hrec & Hck & _ & Hpool); [cbn; lia|].
      exists st'. split; [exact Hleave|]. split; [exact Hrec|]. split; [exact Hck|exact Hpool].
  - edestruct TemplMiddleware_flushes_after_the_cookie
      with (codec := test_codec) (s := s) (pool := 0) (session := 0) (b := 0) (cell := 0)
           (i := 0) (h := 0)
           (st := over wrappersS (λ _, [ {| rw_b := 0; rw_c := 1000 |} ]) buffered)
      as [_ Hinvalid].
    + vm_compute. reflexivity.
    + vm_compute. reflexivity.
    + vm_compute. reflexivity.
    + vm_compute. reflexivity.
    + vm_compute. reflexivity.
    + reflexivity.
    + vm_compute. reflexivity.
    + vm_compute. reflexivity.
    + reflexivity.
    + vm_compute. reflexivity.
    + etrans; [apply Hinvalid; cbn; lia|vm_compute; reflexivity].
Defined.

Lemma TemplMiddleware_serves_a_writing_handler_witness :
  let s := New "secret" [] in
  let st := pooled "/" [("_session", "ben")] in
  let line := HCookie (session_cookie s "sealed" 1700000000) in
  ∃ st',
    TemplMiddleware_ServeHTTP test_codec s
      (λ w _, write_all w [OpWrite "hello, "; OpWriteHeader 201; OpWrite "world!"]) 0 rr 0 st
    = Ok tt st' ∧
    recorders st' !! 0
    = Some {| recCode := Some 201%Z; snapHeader := Some (Header_Add ∅ "Set-Cookie" line);
              recBody := "hello, world!" |} ∧
    buffers st' !! 0 = Some "" ∧
    pools st' !! 0 = Some [0].
Proof.
  intros s st line.
  edestruct TemplMiddleware_serves_a_writing_handler
    with (codec := test_codec) (s := s) (pool := 0) (i := 0) (h := 0) (r := 0) (st := st)
         (ops := [OpWrite "hello, "; OpWriteHeader 201; OpWrite "world!"])
    as (st' & Hrun & Hrec & _ & Hb & Hp & _).
  - vm_compute. reflexivity.
  - vm_compute. reflexivity.
  - vm_compute. reflexivity.
  - intros b [= <-]. vm_compute. eexists. reflexivity.
  - vm_compute. reflexivity.
  - reflexivity.
  - vm_compute. reflexivity.
  - vm_compute. reflexivity.
  - cbn. lia.
  - exists st'. split; [exact Hrun|]. split; [exact Hrec|]. split; [exact Hb|exact Hp].
Defined.

Lemma TemplMiddleware_commits_the_cleared_flashes_witness :
  let s := New "secret" [] in
  let st := pooled "/" [("_session", "notice")] in
  let line := HCookie (session_cookie s "sealed" 1700000000) in
  ∃ st',
    TemplMiddleware_ServeHTTP test_codec s
      (flash_view_handler s (λ flashes w, write_all w (notice_template flashes))) 0 rr 0 st
    = Ok tt st' ∧
    recorders st' !! 0
    = Some {| recCode := Some 200%Z; snapHeader := Some (Header_Add ∅ "Set-Cookie" line);
              recBody := "hi" |} ∧
    sessions st' !! 0 = Some {| Data := Some ∅; Flashes := Some ∅ |}.
Proof.
  intros s st line.
  edestruct TemplMiddleware_commits_the_cleared_flashes
    with (codec := test_codec) (s := s) (pool := 0) (i := 0) (h := 0) (r := 0) (st := st)
         (template := notice_template)
    as (st' & Hrun & Hrec & _ & _ & Hs).
  - vm_compute. reflexivity.
  - vm_compute. reflexivity.
  - vm_compute. reflexivity.
  - intros b [= <-]. vm_compute. eexists. reflexivity.
  - vm_compute. reflexivity.
  - reflexivity.
  - vm_compute. reflexivity.
  - vm_compute. reflexivity.
  - vm_compute. split; discriminate.
  - exists st'. split; [exact Hrun|]. split; [exact Hrec|exact Hs].
Defined.

Lemma Reset_under_TemplMiddleware_is_overridden_witness :
  let s := New "secret" [] in
  let st := pooled "/" [("_session", "N" +:+ "Ben")] in
  ∃ st',
    TemplMiddleware_ServeHTTP tag_codec s (reset_route tag_codec s) 0 rr 0 st = Ok tt st' ∧
    cookies_of st' rr = [HCookie (session_cookie s "" 1700000000);
                         HCookie (session_cookie s "NBen" 1700000000)].
Proof.
  intros s st.
  edestruct Reset_under_TemplMiddleware_is_overridden
    with (codec := tag_codec) (s := s) (pool := 0) (i := 0) (h := 0) (r := 0) (st := st)
    as (st' & Hrun & Hck & _).
  - vm_compute. reflexivity.
  - vm_compute. reflexivity.
  - vm_compute. reflexivity.
  - intros b [= <-]. vm_compute. eexists. reflexivity.
  - vm_compute. reflexivity.
  - vm_compute. reflexivity.
  - vm_compute. reflexivity.
  - vm_compute. reflexivity.
  - exists st'. split; [exact Hrun|exact Hck].
Defined.

Lemma Flash_under_TemplMiddleware_is_committed_witness :
  let s := New "secret" [] in
  let st := pooled "/flash" [] in
  let line := HCookie (session_cookie s "Fmessage from flash" 1700000000) in
  ∃ st' sent,
    TemplMiddleware_ServeHTTP tag_codec s
      (flash_route tag_codec s "notice" (IString "message from flash")) 0 rr 0 st = Ok tt st' ∧
    cookies_of st' rr = [line; line] ∧
    headers st' !! 0 = Some sent ∧
    recorders st' !! 0
    = Some {| recCode := Some 204%Z; snapHeader := Some sent; recBody := "" |}.
Proof.
  intros s st line.
  edestruct Flash_under_TemplMiddleware_is_committed
    with (codec := tag_codec) (s := s) (pool := 0) (i := 0) (h := 0) (r := 0) (st := st)
         (key := "notice") (flash := IString "message from flash")
    as (st' & sent & Hrun & Hck & Hsent & Hrec & _).
  - vm_compute. reflexivity.
  - vm_compute. reflexivity.
  - vm_compute. reflexivity.
  - intros b [= <-]. vm_compute. eexists. reflexivity.
  - vm_compute. reflexivity.
  - reflexivity.
  - vm_compute. reflexivity.
  - vm_compute. reflexivity.
  - vm_compute. reflexivity.
  - exists st', sent. split; [exact Hrun|]. split; [exact Hck|]. split; [exact Hsent|exact Hrec].
Defined.

Lemma Set_reaches_the_next_request_witness :
  let s := New "secret" [] in
  (∃ st2, Set_ tag_codec s rr 0 "name" (IString "Ben") (inbound "/" []) = Ok tt st2 ∧
          last (cookies_of st2 rr) = Some (HCookie (session_cookie s "NBen" 1700000000))) ∧
  (∃ st2, Get tag_codec s 0 "name" (inbound "/" [("_session", "NBen")])
          = Ok (IString "Ben") st2).
Proof.
  intros s.
  edestruct Set_reaches_the_next_request
    with (codec := tag_codec) (s := s) (w := rr) (r := 0) (key := "name")
         (value := IString "Ben") (st := inbound "/" [])
         (r2 := 0) (st' := inbound "/" [("_session", "NBen")])
    as ((st2 & cookie & HSet & Hlast & _) & HGet & _).
  - vm_compute. reflexivity.
  - vm_compute. reflexivity.
  - vm_compute. reflexivity.
  - vm_compute. reflexivity.
  - vm_compute. eexists. reflexivity.
  - vm_compute. reflexivity.
  - vm_compute. reflexivity.
  - vm_compute. reflexivity.
  - reflexivity.
  - vm_compute. reflexivity.
  - split; [|exact HGet].
    exists st2. split; [exact HSet|].
    assert (Hrun : ∃ st2', Set_ tag_codec s rr 0 "name" (IString "Ben") (inbound "/" [])
                           = Ok tt st2' ∧
                           last (cookies_of st2' rr)
                           = Some (HCookie (session_cookie s "NBen" 1700000000))).
    { eexists. split; vm_compute; reflexivity. }
    destruct Hrun as (st2' & HSet' & Hlast').
    rewrite HSet in HSet'. injection HSet' as ->. exact Hlast'.
Defined.

Lemma flash_is_shown_once_across_requests_witness :
  let s := New "secret" [] in
  (∃ st2, Flashes_ tag_codec s rr 0 (inbound "/" [("_session", "Fhi")])
          = Ok {["notice" := IString "hi"]} st2) ∧
  (∃ st4, Flashes_ tag_codec s rr 0 (inbound "/" [("_session", "")]) = Ok ∅ st4).
Proof.
  intros s.
  edestruct flash_is_shown_once_across_requests
    with (codec := tag_codec) (s := s) (w := rr) (r := 0) (st := inbound "/" [("_session", "Fhi")])
         (w3 := rr) (r3 := 0) (st3 := inbound "/" [("_session", "")])
    as ((st2 & cookie & HF & _) & HF3 & _).
  - vm_compute. reflexivity.
  - vm_compute. reflexivity.
  - reflexivity.
  - vm_compute. reflexivity.
  - vm_compute. reflexivity.
  - vm_compute. eexists. reflexivity.
  - vm_compute. reflexivity.
  - vm_compute. reflexivity.
  - vm_compute. reflexivity.
  - reflexivity.
  - vm_compute. reflexivity.
  - vm_compute. eexists. reflexivity.
  - split; [exists st2; exact HF|exact HF3].
Defined.
